(** * Batch analysis orchestrator: a shallow embedding of [analyze.js]

    The repository holds two revisions of one Node.js script.  The first
    ([src/analyze.js]) sends every file named on the command line to a
    generative-language service and stores the parsed answers in one object,
    [masterAnalysis], which is written to [./analysis.json].  The second
    revision adds a project context (read from [package.json] and
    [README.md]) to every prompt.

    How the script is modelled:
    - JavaScript strings are sequences of UTF-16 code units, and every string
      operation the script uses ([replace], [trim], [substring], [endsWith],
      property keys) works on code units, so a string is a list of code units.
    - [masterAnalysis] is an ordinary object: its own properties in the order
      of their creation, and its prototype.  [JSON.stringify] enumerates the
      own properties with the array-index keys first.
    - The body of the loop is written in a small state-and-exception monad:
      the state holds the accumulator and what the script did to the outside
      (requests, delays, printed lines), [None] is a thrown exception.
    - The file system is a function from paths to what is found there; it
      does not change during a run.  The service is a function of the number
      of the request and of the prompt, so that any sequence of answers can be
      stated.
    - [JSON.parse] is a recursive-descent parser of the JSON grammar; a
      number keeps its text.  [path.basename] is the POSIX one. *)

From Stdlib Require Import List NArith Bool Lia Arith String Ascii Permutation.
Import ListNotations.

Local Open Scope N_scope.

(** ** Strings *)

Definition code_unit := N.
Definition jsstring := list code_unit.

(** An ASCII literal as a JavaScript string. *)
Definition js (s : string) : jsstring :=
  map N_of_ascii (list_ascii_of_string s).

Fixpoint jsstring_eqb (a b : jsstring) : bool :=
  match a, b with
  | [], [] => true
  | x :: a', y :: b' => (x =? y) && jsstring_eqb a' b'
  | _, _ => false
  end.

(** [s.startsWith(pat)] *)
Fixpoint starts_with (pat s : jsstring) : bool :=
  match pat, s with
  | [], _ => true
  | _ :: _, [] => false
  | p :: pat', c :: s' => (p =? c) && starts_with pat' s'
  end.

(** [s.endsWith(pat)] *)
Definition ends_with (pat s : jsstring) : bool :=
  starts_with (rev pat) (rev s).

(** [s.includes(pat)] *)
Fixpoint includes (pat s : jsstring) : bool :=
  match s with
  | [] => starts_with pat []
  | _ :: s' => starts_with pat s || includes pat s'
  end.

(** [s.replace(/pat/g, '')] for a pattern of literal characters: the matches
    are found from left to right and do not overlap; each is deleted.  [skip]
    counts the code units of the current match that are still to be dropped. *)
Fixpoint remove_matches (pat : jsstring) (skip : nat) (s : jsstring) : jsstring :=
  match s with
  | [] => []
  | c :: s' =>
      match skip with
      | S k => remove_matches pat k s'
      | O =>
          if starts_with pat s
          then remove_matches pat (Nat.pred (List.length pat)) s'
          else c :: remove_matches pat 0 s'
      end
  end.

Definition replace_all_by_empty (pat s : jsstring) : jsstring :=
  remove_matches pat 0 s.

(** The two patterns of the script: [/```json/g] and [/```/g]. *)
Definition backtick : code_unit := 96.
Definition fence : jsstring := [backtick; backtick; backtick].
Definition fence_json : jsstring := fence ++ js "json".
Definition two_backticks : jsstring := [backtick; backtick].

(** [WhiteSpace] and [LineTerminator] code points, which [trim] removes. *)
Definition is_js_space (c : code_unit) : bool :=
  ((9 <=? c) && (c <=? 13)) || (c =? 32) || (c =? 160) || (c =? 5760)
  || ((8192 <=? c) && (c <=? 8202)) || (c =? 8232) || (c =? 8233)
  || (c =? 8239) || (c =? 8287) || (c =? 12288) || (c =? 65279).

Fixpoint trim_start (s : jsstring) : jsstring :=
  match s with
  | [] => []
  | c :: s' => if is_js_space c then trim_start s' else s
  end.

Definition trim_end (s : jsstring) : jsstring := rev (trim_start (rev s)).

(** [s.substring(a, b)]: both ends are brought into the string and put in
    order. *)
Definition substring (s : jsstring) (a b : nat) : jsstring :=
  let a' := Nat.min a (List.length s) in
  let b' := Nat.min b (List.length s) in
  firstn (Nat.max a' b' - Nat.min a' b') (skipn (Nat.min a' b') s).

(** [s.trim()] *)
Definition trim (s : jsstring) : jsstring := trim_end (trim_start s).

(** [text.replace(/```json/g, '').replace(/```/g, '')] *)
Definition strip_fences (text : jsstring) : jsstring :=
  replace_all_by_empty fence (replace_all_by_empty fence_json text).

(** ** JSON values and ordinary objects

    A number keeps the text it was written with: its conversion to a binary64
    value is not modelled.  An object is the list of its own properties in the
    order of their creation; every property that [JSON.parse] or an object
    literal creates is an enumerable, writable data property. *)

#[local] Set Warnings "-register-all".

Inductive json : Type :=
| JNull
| JBool (b : bool)
| JNumber (lexeme : jsstring)
| JString (s : jsstring)
| JArray (elements : list json)
| JObject (properties : list (jsstring * json)).

Definition properties_of := list (jsstring * json).

Fixpoint has_own (k : jsstring) (ps : properties_of) : bool :=
  match ps with
  | [] => false
  | (k', _) :: ps' => jsstring_eqb k k' || has_own k ps'
  end.

Fixpoint get_own (k : jsstring) (ps : properties_of) : option json :=
  match ps with
  | [] => None
  | (k', v) :: ps' => if jsstring_eqb k k' then Some v else get_own k ps'
  end.

(** [CreateDataProperty]: the value of an existing property is replaced where
    the property stands; a new property is added after all others. *)
Fixpoint define_own (k : jsstring) (v : json) (ps : properties_of) : properties_of :=
  match ps with
  | [] => [(k, v)]
  | (k', v') :: ps' =>
      if jsstring_eqb k k' then (k', v) :: ps' else (k', v') :: define_own k v ps'
  end.

(** *** Enumeration order of own properties

    [OrdinaryOwnPropertyKeys] lists the keys that are array indices first, in
    ascending numeric order, and the other string keys after them in the order
    of their creation.  An array index is the canonical decimal text of an
    integer from 0 to 2^32 - 2. *)

Definition is_digit (c : code_unit) : bool := (48 <=? c) && (c <=? 57).

Fixpoint decimal_value (acc : N) (s : jsstring) : option N :=
  match s with
  | [] => Some acc
  | c :: s' => if is_digit c then decimal_value (10 * acc + (c - 48)) s' else None
  end.

Definition array_index (k : jsstring) : option N :=
  match k with
  | [] => None
  | c :: rest =>
      if (c =? 48) && negb (match rest with [] => true | _ => false end) then None
      else if Nat.ltb 10 (List.length k) then None
      else match decimal_value 0 k with
           | Some n => if n <=? 4294967294 then Some n else None
           | None => None
           end
  end.

Definition is_array_index (k : jsstring) : bool :=
  match array_index k with Some _ => true | None => false end.

Fixpoint insert_by_index (n : N) (e : jsstring * json)
  (sorted : list (N * (jsstring * json))) : list (N * (jsstring * json)) :=
  match sorted with
  | [] => [(n, e)]
  | (m, e') :: rest =>
      if n <=? m then (n, e) :: sorted else (m, e') :: insert_by_index n e rest
  end.

Fixpoint index_entries (ps : properties_of) : list (N * (jsstring * json)) :=
  match ps with
  | [] => []
  | (k, v) :: ps' =>
      match array_index k with
      | Some n => insert_by_index n (k, v) (index_entries ps')
      | None => index_entries ps'
      end
  end.

Definition own_enumerable_entries (ps : properties_of) : properties_of :=
  map snd (index_entries ps)
  ++ filter (fun e => negb (is_array_index (fst e))) ps.

(** ** [JSON.parse]

    The grammar of ECMA-404 as [JSON.parse] reads it: the only white space is
    tab, line feed, carriage return and space; a string may not hold a control
    character; a repeated key keeps its first place and its last value. *)

Definition is_json_ws (c : code_unit) : bool :=
  (c =? 9) || (c =? 10) || (c =? 13) || (c =? 32).

Fixpoint skip_ws (s : jsstring) : jsstring :=
  match s with
  | [] => []
  | c :: s' => if is_json_ws c then skip_ws s' else s
  end.

Definition hex_value (c : code_unit) : option N :=
  if is_digit c then Some (c - 48)
  else if (65 <=? c) && (c <=? 70) then Some (c - 55)
  else if (97 <=? c) && (c <=? 102) then Some (c - 87)
  else None.

Definition hex4 (a b c d : code_unit) : option code_unit :=
  match hex_value a, hex_value b, hex_value c, hex_value d with
  | Some x, Some y, Some z, Some w => Some (4096 * x + 256 * y + 16 * z + w)
  | _, _, _, _ => None
  end.

(** The one-letter escapes: quote, backslash, solidus, b, f, n, r and t. *)
Definition simple_escape (e : code_unit) : option code_unit :=
  if e =? 34 then Some 34
  else if e =? 92 then Some 92
  else if e =? 47 then Some 47
  else if e =? 98 then Some 8
  else if e =? 102 then Some 12
  else if e =? 110 then Some 10
  else if e =? 114 then Some 13
  else if e =? 116 then Some 9
  else None.

(** The characters of a string after its opening quote, up to and including
    the closing quote. *)
Fixpoint parse_string_chars (s : jsstring) : option (jsstring * jsstring) :=
  match s with
  | [] => None
  | c :: r =>
      if c =? 34 then Some ([], r)
      else if c =? 92 then
        match r with
        | [] => None
        | e :: r1 =>
            if e =? 117 then
              match r1 with
              | h1 :: h2 :: h3 :: h4 :: r2 =>
                  match hex4 h1 h2 h3 h4, parse_string_chars r2 with
                  | Some u, Some (cs, rest) => Some (u :: cs, rest)
                  | _, _ => None
                  end
              | _ => None
              end
            else
              match simple_escape e, parse_string_chars r1 with
              | Some u, Some (cs, rest) => Some (u :: cs, rest)
              | _, _ => None
              end
        end
      else if c <? 32 then None
      else
        match parse_string_chars r with
        | Some (cs, rest) => Some (c :: cs, rest)
        | None => None
        end
  end.

Fixpoint take_digits (s : jsstring) : jsstring * jsstring :=
  match s with
  | c :: s' =>
      if is_digit c then let (ds, rest) := take_digits s' in (c :: ds, rest)
      else ([], s)
  | [] => ([], [])
  end.

(** A number: an optional minus sign; then either a single zero or a nonzero
    digit followed by digits; then optionally a point and at least one digit;
    then optionally [e] or [E], an optional sign and at least one digit. *)
Definition parse_sign (s : jsstring) : jsstring * jsstring :=
  match s with
  | c :: s' => if c =? 45 then ([c], s') else ([], s)
  | [] => ([], [])
  end.

Definition parse_int_part (s : jsstring) : option (jsstring * jsstring) :=
  match s with
  | c :: s' =>
      if c =? 48 then Some ([c], s')
      else if is_digit c then let (ds, rest) := take_digits s' in Some (c :: ds, rest)
      else None
  | [] => None
  end.

Definition parse_fraction (s : jsstring) : option (jsstring * jsstring) :=
  match s with
  | c :: s' =>
      if c =? 46 then
        match take_digits s' with
        | ([], _) => None
        | (ds, rest) => Some (c :: ds, rest)
        end
      else Some ([], s)
  | [] => Some ([], [])
  end.

Definition parse_exponent_sign (s : jsstring) : jsstring * jsstring :=
  match s with
  | d :: s' => if (d =? 43) || (d =? 45) then ([d], s') else ([], s)
  | [] => ([], [])
  end.

Definition parse_exponent (s : jsstring) : option (jsstring * jsstring) :=
  match s with
  | c :: s' =>
      if (c =? 101) || (c =? 69) then
        let (sg, s1) := parse_exponent_sign s' in
        match take_digits s1 with
        | ([], _) => None
        | (ds, rest) => Some (c :: sg ++ ds, rest)
        end
      else Some ([], s)
  | [] => Some ([], [])
  end.

Definition parse_number (s : jsstring) : option (jsstring * jsstring) :=
  let (sg, s1) := parse_sign s in
  match parse_int_part s1 with
  | None => None
  | Some (ip, s2) =>
      match parse_fraction s2 with
      | None => None
      | Some (fp, s3) =>
          match parse_exponent s3 with
          | None => None
          | Some (ep, s4) => Some (sg ++ ip ++ fp ++ ep, s4)
          end
      end
  end.

Definition parse_literal (s : jsstring) : option (json * jsstring) :=
  if starts_with (js "true") s then Some (JBool true, skipn 4 s)
  else if starts_with (js "false") s then Some (JBool false, skipn 5 s)
  else if starts_with (js "null") s then Some (JNull, skipn 4 s)
  else None.

(** Recursive descent.  Each call spends one unit of [fuel]; between two calls
    on the same text at most one more call is made, so twice the length of the
    text (and two) is enough. *)
Fixpoint parse_value (fuel : nat) (s : jsstring) : option (json * jsstring) :=
  match fuel with
  | O => None
  | S n =>
      match skip_ws s with
      | [] => None
      | c :: r =>
          if c =? 123 then                               (* { *)
            match skip_ws r with
            | d :: r' => if d =? 125 then Some (JObject [], r')
                         else parse_members n (skip_ws r) []
            | [] => None
            end
          else if c =? 91 then                           (* [ *)
            match skip_ws r with
            | d :: r' => if d =? 93 then Some (JArray [], r')
                         else parse_elements n (skip_ws r) []
            | [] => None
            end
          else if c =? 34 then
            match parse_string_chars r with
            | Some (cs, rest) => Some (JString cs, rest)
            | None => None
            end
          else if (c =? 45) || is_digit c then
            match parse_number (c :: r) with
            | Some (lx, rest) => Some (JNumber lx, rest)
            | None => None
            end
          else parse_literal (c :: r)
      end
  end
with parse_elements (fuel : nat) (s : jsstring) (acc : list json)
  : option (json * jsstring) :=
  match fuel with
  | O => None
  | S n =>
      match parse_value n s with
      | None => None
      | Some (v, r) =>
          match skip_ws r with
          | c :: r' =>
              if c =? 44 then parse_elements n r' (acc ++ [v])
              else if c =? 93 then Some (JArray (acc ++ [v]), r')
              else None
          | [] => None
          end
      end
  end
with parse_members (fuel : nat) (s : jsstring) (acc : properties_of)
  : option (json * jsstring) :=
  match fuel with
  | O => None
  | S n =>
      match skip_ws s with
      | q :: r0 =>
          if q =? 34 then
            match parse_string_chars r0 with
            | None => None
            | Some (k, r1) =>
                match skip_ws r1 with
                | c :: r2 =>
                    if c =? 58 then
                      match parse_value n r2 with
                      | None => None
                      | Some (v, r3) =>
                          match skip_ws r3 with
                          | d :: r4 =>
                              if d =? 44 then parse_members n r4 (define_own k v acc)
                              else if d =? 125 then Some (JObject (define_own k v acc), r4)
                              else None
                          | [] => None
                          end
                      end
                    else None
                | [] => None
                end
            end
          else None
      | [] => None
      end
  end.

(** [JSON.parse(text)]: [None] stands for the [SyntaxError] it throws. *)
Definition JSON_parse (text : jsstring) : option json :=
  match parse_value (2 * List.length text + 2) text with
  | Some (v, rest) => match skip_ws rest with [] => Some v | _ :: _ => None end
  | None => None
  end.

(** ** Response Normalizer (the two lines after [generateContent]) *)

Definition Response_Normalizer (completion : jsstring) : option json :=
  JSON_parse (trim (strip_fences completion)).

Definition dq : jsstring := [34].
Definition lf : jsstring := [10].

(** A block opened by [```tag] on a line of its own and closed by [```]. *)
Definition fenced (tag body : jsstring) : jsstring :=
  fence ++ tag ++ lf ++ body ++ lf ++ fence.

(** A completion that is JSON as it stands, with three backticks inside a
    string: the value of [props.code] is [```sh], and [wrappers] is empty. *)
Definition backticks_inside : jsstring :=
  js "{" ++ dq ++ js "props" ++ dq ++ js ":{" ++ dq ++ js "code" ++ dq ++ js ":"
  ++ dq ++ fence ++ js "sh" ++ dq ++ js "}," ++ dq ++ js "wrappers" ++ dq ++ js ":{}}".

(** ** The accumulator object

    [masterAnalysis] starts as the literal [{}]: an object without own
    properties whose prototype is [Object.prototype].  The assignment
    [masterAnalysis[filePath] = value] is the ordinary [[Set]]: it replaces the
    value of an own property, or creates one, unless the key is [__proto__] and
    the accessor of [Object.prototype] is inherited; that accessor creates no
    property and makes the value the prototype of the object when the value is
    an object or [null]. *)

Inductive prototype_of : Type :=
| ObjectPrototype
| NullPrototype
| ValuePrototype (v : json).

Record jsobject : Type := {
  own : properties_of;
  proto : prototype_of
}.

Definition empty_object : jsobject := {| own := []; proto := ObjectPrototype |}.

Definition proto_key : jsstring := js "__proto__".

(** Whether a [[Set]] of [__proto__] that starts at prototype [p] finds the
    accessor of [Object.prototype] before any data property of that name. *)
Definition inherits_proto_accessor (p : prototype_of) : bool :=
  match p with
  | ObjectPrototype => true
  | NullPrototype => false
  | ValuePrototype (JObject ps) => negb (has_own proto_key ps)
  | ValuePrototype _ => true
  end.

Definition set_prototype (v : json) (o : jsobject) : jsobject :=
  match v with
  | JObject _ | JArray _ => {| own := own o; proto := ValuePrototype v |}
  | JNull => {| own := own o; proto := NullPrototype |}
  | _ => o
  end.

(** [o[k] = v] *)
Definition assign (k : jsstring) (v : json) (o : jsobject) : jsobject :=
  if has_own k (own o) then {| own := define_own k v (own o); proto := proto o |}
  else if jsstring_eqb k proto_key && inherits_proto_accessor (proto o)
       then set_prototype v o
       else {| own := define_own k v (own o); proto := proto o |}.

(** Two objects with the same prototype and the same keys in the same order,
    whose values agree except under the key [f]. *)
Definition agree_except (f : jsstring) (m1 m2 : jsobject) : Prop :=
  proto m1 = proto m2
  /\ map fst (own m1) = map fst (own m2)
  /\ forall g, g <> f -> get_own g (own m1) = get_own g (own m2).

(** The entries [JSON.stringify(o, null, 2)] writes, in the order it writes
    them. *)
Definition BatchOutput (o : jsobject) : properties_of :=
  own_enumerable_entries (own o).

(** [{ props: {}, wrappers: {} }] *)
Definition fallback : json :=
  JObject [(js "props", JObject []); (js "wrappers", JObject [])].

(** ** The world outside the script *)

Inductive file_entry : Type :=
| Missing                          (* [existsSync] answers false *)
| Unreadable                       (* exists, [readFileSync] throws *)
| Readable (content : jsstring).

Definition filesystem := jsstring -> file_entry.

(** The generative service: what the request number [k] (counted from 0)
    answers to a prompt; [None] when [generateContent] or [response.text()]
    throws. *)
Definition service := nat -> jsstring -> option jsstring.

(** Where the result is written: whether serialising the entries and writing
    them to the path returns ([true]) or throws ([false]). *)
Definition sink := jsstring -> properties_of -> bool.

Inductive console_line : Type :=
| NoFilesProvided
| ContextWarning
| Starting (n : nat)
| SkippingDeleted (filePath : jsstring)
| Analyzing (filePath : jsstring)
| WaitingNotice
| FailedToAnalyze (filePath : jsstring)
| Complete.

(** ** State and exceptions

    What a run has done so far: the accumulator, the prompts sent to the
    service, the delays slept and the lines printed, each oldest first; and
    the order in which requests, assignments to the accumulator and delays
    came, in [trace]. *)

Inductive event : Type :=
| Requested (prompt : jsstring)
| Stored (key : jsstring) (value : json)
| Slept (ms : N).

Record run_state : Type := {
  masterAnalysis : jsobject;
  requests : list jsstring;
  delays : list N;
  console : list console_line;
  trace : list event
}.

Definition initial_state : run_state :=
  {| masterAnalysis := empty_object; requests := []; delays := []; console := [];
     trace := [] |}.

(** A statement changes a state and either completes with a value or throws
    ([None]); what it did before throwing stays done. *)
Definition Stmt (S A : Type) : Type := S -> S * option A.

Definition ret {S A : Type} (a : A) : Stmt S A := fun st => (st, Some a).

Definition bind {S A B : Type} (m : Stmt S A) (f : A -> Stmt S B) : Stmt S B :=
  fun st =>
    match m st with
    | (st', Some a) => f a st'
    | (st', None) => (st', None)
    end.

(** A pure computation that may throw. *)
Definition of_option {S A : Type} (o : option A) : Stmt S A := fun st => (st, o).

(** [try { body } catch (e) { handler }] *)
Definition try_catch {S : Type} (body handler : Stmt S unit) : Stmt S unit :=
  fun st =>
    match body st with
    | (st', Some tt) => (st', Some tt)
    | (st', None) => handler st'
    end.

Declare Scope js_scope.
Delimit Scope js_scope with js.
Notation "x <- m ;; k" := (bind m (fun x => k))
  (at level 61, m at next level, right associativity) : js_scope.
Notation "m ;; k" := (bind m (fun _ => k))
  (at level 61, right associativity) : js_scope.

Definition M : Type -> Type := Stmt run_state.

Definition console_log (l : console_line) : M unit :=
  fun st =>
    ({| masterAnalysis := masterAnalysis st; requests := requests st;
        delays := delays st; console := console st ++ [l]; trace := trace st |},
     Some tt).

Definition sleep (ms : N) : M unit :=
  fun st =>
    ({| masterAnalysis := masterAnalysis st; requests := requests st;
        delays := delays st ++ [ms]; console := console st;
        trace := trace st ++ [Slept ms] |}, Some tt).

Definition set_masterAnalysis (k : jsstring) (v : json) : M unit :=
  fun st =>
    ({| masterAnalysis := assign k v (masterAnalysis st); requests := requests st;
        delays := delays st; console := console st;
        trace := trace st ++ [Stored k v] |}, Some tt).

Fixpoint for_of {S A : Type} (l : list A) (body : A -> Stmt S unit) : Stmt S unit :=
  match l with
  | [] => ret tt
  | x :: l' => bind (body x) (fun _ => for_of l' body)
  end.

Definition OUTPUT_PATH : jsstring := js "./analysis.json".

Section Orchestrator.

Variable disk : sink.
Variable fs : filesystem.
Variable model : service.

(** The prompt template of the revision, applied to [filePath] and [code]. *)
Variable compose : jsstring -> jsstring -> jsstring.

(** The first revision prints a line for a skipped file, the second does not. *)
Variable announce_skips : bool.

(** [process.argv.slice(2)] *)
Variable FILES : list jsstring.

Definition existsSync (path : jsstring) : bool :=
  match fs path with Missing => false | _ => true end.

Definition readFileSync (path : jsstring) : M jsstring :=
  of_option (match fs path with Readable content => Some content | _ => None end).

(** [(await model.generateContent(prompt)).response.text()] *)
Definition generateContent (prompt : jsstring) : M jsstring :=
  fun st =>
    ({| masterAnalysis := masterAnalysis st; requests := requests st ++ [prompt];
        delays := delays st; console := console st;
        trace := trace st ++ [Requested prompt] |},
     model (List.length (requests st)) prompt).

Local Open Scope js_scope.

Definition try_block (filePath : jsstring) : M unit :=
  console_log (Analyzing filePath) ;;
  code <- readFileSync filePath ;;
  result <- generateContent (compose filePath code) ;;
  parsed <- of_option (JSON_parse (trim (strip_fences result))) ;;
  set_masterAnalysis filePath parsed ;;
  if Nat.ltb 1 (List.length FILES)
  then console_log WaitingNotice ;; sleep 4000
  else ret tt.

Definition catch_block (filePath : jsstring) : M unit :=
  console_log (FailedToAnalyze filePath) ;;
  set_masterAnalysis filePath fallback.

Definition loop_body (filePath : jsstring) : M unit :=
  if negb (existsSync filePath)
  then (if announce_skips then console_log (SkippingDeleted filePath) else ret tt)
  else try_catch (try_block filePath) (catch_block filePath).

(** The loop of [analyzeAll] over a part of the list. *)
Definition analyze_files (files : list jsstring) : M unit :=
  for_of files loop_body.

(** The state at the end of the loop entered in state [st]. *)
Definition after_loop (files : list jsstring) (st : run_state) : run_state :=
  fst (analyze_files files st).

Record process : Type := {
  exit_code : option N;
  final : run_state;
  artifact : option (jsstring * properties_of)
}.

(** [fs.writeFileSync(path, JSON.stringify(masterAnalysis, null, 2))]: the
    entries of the accumulator go to the file in the order of [BatchOutput],
    or the call throws. *)
Definition writeFileSync (path : jsstring) : M (jsstring * properties_of) :=
  fun st =>
    let entries := BatchOutput (masterAnalysis st) in
    (st, if disk path entries then Some (path, entries) else None).

(** [analyzeAll()], called when [printed] has been printed: a new accumulator
    [{}], the loop, then the write and the closing line.  Nothing catches what
    [analyzeAll] throws: the promise it returns is rejected, and Node (from
    version 15) ends the process with status 1. *)
Definition analyzeAll (printed : list console_line) : process :=
  let st0 := {| masterAnalysis := empty_object; requests := []; delays := [];
                console := printed; trace := [] |} in
  let (st1, written) := (console_log (Starting (List.length FILES)) ;;
                         analyze_files FILES ;;
                         file <- writeFileSync OUTPUT_PATH ;;
                         console_log Complete ;;
                         ret file) st0 in
  match written with
  | Some file => {| exit_code := None; final := st1; artifact := Some file |}
  | None => {| exit_code := Some 1; final := st1; artifact := None |}
  end.

(** *** The state machine of one target

    Section 4.4 of the specification gives each target one of three ends.
    [outcome_of k filePath] is the end of [filePath] when [k] requests have
    been sent before it; [outcomes] lists the ends of a run of targets. *)

Inductive outcome : Type :=
| SkippedMissing
| Succeeded (result : json)
| FailedFallback.

Definition outcome_of (k : nat) (filePath : jsstring) : outcome :=
  match fs filePath with
  | Missing => SkippedMissing
  | Unreadable => FailedFallback
  | Readable code =>
      match model k (compose filePath code) with
      | None => FailedFallback
      | Some completion =>
          match Response_Normalizer completion with
          | Some v => Succeeded v
          | None => FailedFallback
          end
      end
  end.

(** The prompts sent for a target: one when it can be read, none otherwise. *)
Definition sent_for (filePath : jsstring) : list jsstring :=
  match fs filePath with
  | Readable code => [compose filePath code]
  | _ => []
  end.

Fixpoint outcomes (k : nat) (files : list jsstring) : list outcome :=
  match files with
  | [] => []
  | f :: files' => outcome_of k f :: outcomes (k + List.length (sent_for f)) files'
  end.

Definition record (filePath : jsstring) (o : outcome) (m : jsobject) : jsobject :=
  match o with
  | SkippedMissing => m
  | Succeeded v => assign filePath v m
  | FailedFallback => assign filePath fallback m
  end.

Fixpoint record_all (files : list jsstring) (os : list outcome) (m : jsobject) : jsobject :=
  match files, os with
  | f :: files', o :: os' => record_all files' os' (record f o m)
  | _, _ => m
  end.

Definition succeeded (o : outcome) : bool :=
  match o with Succeeded _ => true | _ => false end.

Definition throttled (o : outcome) : list N :=
  if succeeded o && Nat.ltb 1 (List.length FILES) then [4000] else [].

(** Every target of [files] can be read, and the request sent for the target
    at position [i] (request [k + i] of the run) is answered by a completion
    that the normalizer parses to the value at position [i] of [vs]. *)
Fixpoint all_succeed (k : nat) (files : list jsstring) (vs : list json) : Prop :=
  match files, vs with
  | [], [] => True
  | f :: files', v :: vs' =>
      (exists code completion,
          fs f = Readable code
          /\ model k (compose f code) = Some completion
          /\ Response_Normalizer completion = Some v)
      /\ all_succeed (S k) files' vs'
  | _, _ => False
  end.

(** What the outside can tell of a state: the accumulator, the requests and
    the delays (not the lines printed). *)
Definition observable (st : run_state) : jsobject * list jsstring * list N :=
  (masterAnalysis st, requests st, delays st).

End Orchestrator.

(** ** First revision: [src/analyze.js] *)

Definition prompt_v1 (filePath code : jsstring) : jsstring :=
  List.concat [
    lf;
    js "        You are an expert React System. Analyze this code." ++ lf;
    js "        Output JSON with:" ++ lf;
    js "        1. " ++ dq ++ js "props" ++ dq ++ js ": Realistic mock data." ++ lf;
    js "        2. " ++ dq ++ js "wrappers" ++ dq ++ js ": Boolean list (router, redux, query)." ++ lf;
    js "        " ++ lf;
    js "        Output ONLY valid JSON." ++ lf;
    js "        Code: " ++ code ++ lf;
    js "      " ].

(** The script from its first line: it leaves with code 1 when no file is
    named, before anything else is done. *)
Definition main_v1 (disk : sink) (fs : filesystem) (model : service)
  (FILES : list jsstring) : process :=
  match FILES with
  | [] =>
      {| exit_code := Some 1;
         final := fst (console_log NoFilesProvided initial_state);
         artifact := None |}
  | _ :: _ => analyzeAll disk fs model prompt_v1 true FILES []
  end.

(** ** Second revision: the project context *)

(** *** Conversions of the language

    The conversions of a number (to a string, to a boolean) act on its binary64
    value, which is not modelled: they are parameters. *)

Fixpoint uint_units (d : Decimal.uint) : jsstring :=
  match d with
  | Decimal.Nil => []
  | Decimal.D0 d' => 48 :: uint_units d'
  | Decimal.D1 d' => 49 :: uint_units d'
  | Decimal.D2 d' => 50 :: uint_units d'
  | Decimal.D3 d' => 51 :: uint_units d'
  | Decimal.D4 d' => 52 :: uint_units d'
  | Decimal.D5 d' => 53 :: uint_units d'
  | Decimal.D6 d' => 54 :: uint_units d'
  | Decimal.D7 d' => 55 :: uint_units d'
  | Decimal.D8 d' => 56 :: uint_units d'
  | Decimal.D9 d' => 57 :: uint_units d'
  end.

(** The key of the element at position [n] of an array or a string. *)
Definition index_key (n : nat) : jsstring := uint_units (Nat.to_uint n).

(** [parts.join(sep)] for an array of strings. *)
Fixpoint join (sep : jsstring) (parts : list jsstring) : jsstring :=
  match parts with
  | [] => []
  | [x] => x
  | x :: rest => x ++ sep ++ join sep rest
  end.

Section Conversions.

Variable Number_toString : jsstring -> jsstring.
Variable Number_truthy : jsstring -> bool.

(** [ToBoolean] *)
Definition truthy (v : json) : bool :=
  match v with
  | JNull => false
  | JBool b => b
  | JNumber lx => Number_truthy lx
  | JString s => negb (match s with [] => true | _ => false end)
  | JArray _ => true
  | JObject _ => true
  end.

(** [ToString], as a template literal applies it.  An array is joined with
    commas, [null] elements giving the empty string; a plain object gives
    [[object Object]] unless an own property hides [toString], in which case
    no conversion is found and a [TypeError] is thrown. *)
Fixpoint ToString (v : json) : option jsstring :=
  match v with
  | JNull => Some (js "null")
  | JBool true => Some (js "true")
  | JBool false => Some (js "false")
  | JNumber lx => Some (Number_toString lx)
  | JString s => Some s
  | JArray es =>
      (fix elements (l : list json) : option jsstring :=
         match l with
         | [] => Some []
         | e :: l' =>
             match (match e with JNull => Some [] | _ => ToString e end) with
             | None => None
             | Some a =>
                 match l' with
                 | [] => Some a
                 | _ :: _ =>
                     match elements l' with
                     | Some b => Some (a ++ js "," ++ b)
                     | None => None
                     end
                 end
             end
         end) es
  | JObject ps =>
      if has_own (js "toString") ps then None else Some (js "[object Object]")
  end.

(** [pkg.name], [pkg.description], [pkg.dependencies]: no prototype has a
    property of one of these names, so only an own property of an object is
    found.  The outer [None] is the [TypeError] of reading a property of
    [null]; the inner [None] is [undefined]. *)
Definition get_field (v : json) (k : jsstring) : option (option json) :=
  match v with
  | JNull => None
  | JObject ps => Some (get_own k ps)
  | _ => Some None
  end.

(** [x || d] *)
Definition or_else (x : option json) (d : json) : json :=
  match x with
  | Some v => if truthy v then v else d
  | None => d
  end.

(** [Object.keys(v)]; it throws for [null]. *)
Definition Object_keys (v : json) : option (list jsstring) :=
  match v with
  | JNull => None
  | JObject ps => Some (map fst (own_enumerable_entries ps))
  | JArray es => Some (map index_key (seq 0 (List.length es)))
  | JString s => Some (map index_key (seq 0 (List.length s)))
  | _ => Some []
  end.

(** *** Context Builder *)

Record context_state : Type := {
  projectContext : jsstring;
  warnings : list console_line
}.

Definition set_projectContext (f : jsstring -> jsstring) : Stmt context_state unit :=
  fun st =>
    ({| projectContext := f (projectContext st); warnings := warnings st |}, Some tt).

Definition console_warn (l : console_line) : Stmt context_state unit :=
  fun st =>
    ({| projectContext := projectContext st; warnings := warnings st ++ [l] |}, Some tt).

Section ContextBuilder.

Variable fs : filesystem.

Local Open Scope js_scope.

Definition read_utf8 (path : jsstring) : Stmt context_state jsstring :=
  of_option (match fs path with Readable content => Some content | _ => None end).

Definition exists_path (path : jsstring) : bool :=
  match fs path with Missing => false | _ => true end.

Definition read_package : Stmt context_state unit :=
  if exists_path (js "package.json") then
    text <- read_utf8 (js "package.json") ;;
    pkg <- of_option (JSON_parse text) ;;
    name <- of_option (get_field pkg (js "name")) ;;
    name_text <- of_option (ToString (or_else name (JString (js "Unnamed")))) ;;
    description <- of_option (get_field pkg (js "description")) ;;
    description_text <- of_option (ToString (or_else description (JString []))) ;;
    set_projectContext (fun _ =>
      js "Project Name: " ++ dq ++ name_text ++ dq ++ lf
      ++ js "Description: " ++ dq ++ description_text ++ dq) ;;
    dependencies <- of_option (get_field pkg (js "dependencies")) ;;
    keys <- of_option (Object_keys (or_else dependencies (JObject []))) ;;
    set_projectContext (fun ctx =>
      ctx ++ lf ++ js "Key Libraries: " ++ join (js ", ") keys)
  else ret tt.

Definition read_readme : Stmt context_state unit :=
  if exists_path (js "README.md") then
    readme <- read_utf8 (js "README.md") ;;
    set_projectContext (fun ctx =>
      ctx ++ lf ++ lf ++ js "README Summary:" ++ lf
      ++ substring readme 0 3000 ++ js "...")
  else ret tt.

Definition placeholder : jsstring := js "Unknown React Application".

(** The state after the [try]/[catch] that gathers the context. *)
Definition gather_context : context_state :=
  fst (try_catch (read_package ;; read_readme) (console_warn ContextWarning)
         {| projectContext := placeholder; warnings := [] |}).

End ContextBuilder.

End Conversions.

(** *** Prompt Composer *)

Definition is_slash (c : code_unit) : bool := c =? 47.

Fixpoint drop_slashes (s : jsstring) : jsstring :=
  match s with
  | [] => []
  | c :: s' => if is_slash c then drop_slashes s' else s
  end.

Fixpoint until_slash (s : jsstring) : jsstring :=
  match s with
  | [] => []
  | c :: s' => if is_slash c then [] else c :: until_slash s'
  end.

(** [path.basename(p)] with the POSIX separator: its last part, slashes at its
    end left out. *)
Definition basename (p : jsstring) : jsstring :=
  rev (until_slash (drop_slashes (rev p))).

Definition prompt_v2 (context filePath code : jsstring) : jsstring :=
  let filename := basename filePath in
  let isTS := if ends_with (js ".tsx") filePath then js "true" else js "false" in
  List.concat [
    lf;
    js "        You are a Data Mocking Expert. " ++ lf;
    js "        " ++ lf;
    js "        PROJECT CONTEXT:" ++ lf;
    js "        " ++ context ++ lf;
    lf;
    js "        TARGET COMPONENT:" ++ lf;
    js "        Filename: " ++ dq ++ filename ++ dq ++ lf;
    js "        Is TypeScript: " ++ isTS ++ lf;
    lf;
    js "        TASK:" ++ lf;
    js "        Analyze the component code and generate realistic JSON props." ++ lf;
    lf;
    js "        STRICT GUIDELINES:" ++ lf;
    js "        1. **Context is King:** Use the Project Context/README to infer the data domain. (e.g. if README says " ++ dq ++ js "Bookstore" ++ dq ++ js ", generate Book titles, not " ++ dq ++ js "Product A" ++ dq ++ js ")." ++ lf;
    js "        2. **Working Images (Idea 2):** NEVER generate fake URLs like 'http://example.com/img.jpg'. " ++ lf;
    js "           - For Users/Avatars use: " ++ dq ++ js "https://ui-avatars.com/api/?name=John+Doe&background=random" ++ dq ++ lf;
    js "           - For Products/Items use: " ++ dq ++ js "https://placehold.co/600x400?text=Product+Name" ++ dq ++ lf;
    js "        3. **TypeScript Compliance (Idea 3):** If the file is .tsx, look for 'interface' or 'type' definitions. You MUST generate data that strictly matches those types (enums, optional fields, arrays)." ++ lf;
    js "        4. **Wrappers:** Detect if the code needs 'router', 'redux', or 'query'." ++ lf;
    lf;
    js "        Output JSON format:" ++ lf;
    js "        {" ++ lf;
    js "          " ++ dq ++ js "props" ++ dq ++ js ": { ... }," ++ lf;
    js "          " ++ dq ++ js "wrappers" ++ dq ++ js ": { " ++ dq ++ js "router" ++ dq ++ js ": boolean, " ++ dq ++ js "redux" ++ dq ++ js ": boolean, " ++ dq ++ js "query" ++ dq ++ js ": boolean }" ++ lf;
    js "        }" ++ lf;
    lf;
    js "        COMPONENT CODE:" ++ lf;
    js "        " ++ code ++ lf;
    js "      " ].

(** The second revision from its first line: the check of the arguments, the
    context, then [analyzeAll]. *)
Definition main_v2 (disk : sink) (Number_toString : jsstring -> jsstring)
  (Number_truthy : jsstring -> bool)
  (fs : filesystem) (model : service) (FILES : list jsstring) : process :=
  match FILES with
  | [] =>
      {| exit_code := Some 1;
         final := fst (console_log NoFilesProvided initial_state);
         artifact := None |}
  | _ :: _ =>
      let ctx := gather_context Number_toString Number_truthy fs in
      analyzeAll disk fs model (prompt_v2 (projectContext ctx)) false FILES (warnings ctx)
  end.

(** ** What the script prints

    The lines that one target adds to the console, by its end, and the lines
    of a run of targets: the same bookkeeping as [outcomes], for the
    [console.log], [console.error] and [process.stdout.write] calls of the
    loop. *)

Section Reporting.

Variable fs : filesystem.
Variable model : service.
Variable compose : jsstring -> jsstring -> jsstring.
Variable announce_skips : bool.
Variable FILES : list jsstring.

Definition lines_for (filePath : jsstring) (o : outcome) : list console_line :=
  match o with
  | SkippedMissing => if announce_skips then [SkippingDeleted filePath] else []
  | Succeeded _ =>
      Analyzing filePath
      :: (if Nat.ltb 1 (List.length FILES) then [WaitingNotice] else [])
  | FailedFallback => [Analyzing filePath; FailedToAnalyze filePath]
  end.

Fixpoint report (k : nat) (files : list jsstring) : list console_line :=
  match files with
  | [] => []
  | f :: files' =>
      lines_for f (outcome_of fs model compose k f)
      ++ report (k + List.length (sent_for fs compose f)) files'
  end.

End Reporting.

(** ** The order of the calls

    The requests, assignments and delays of one target, by its end, and those
    of a run of targets: the same bookkeeping as [outcomes], for [trace]. *)

Section Tracing.

Variable fs : filesystem.
Variable model : service.
Variable compose : jsstring -> jsstring -> jsstring.
Variable FILES : list jsstring.

Definition events_for (filePath : jsstring) (o : outcome) : list event :=
  map Requested (sent_for fs compose filePath)
  ++ match o with
     | SkippedMissing => []
     | Succeeded v => Stored filePath v :: map Slept (throttled FILES o)
     | FailedFallback => [Stored filePath fallback]
     end.

Fixpoint timeline (k : nat) (files : list jsstring) : list event :=
  match files with
  | [] => []
  | f :: files' =>
      events_for f (outcome_of fs model compose k f)
      ++ timeline (k + List.length (sent_for fs compose f)) files'
  end.

End Tracing.

(** Whether [readFileSync] gives the content of a path. *)
Definition is_readable (fs : filesystem) (path : jsstring) : bool :=
  match fs path with Readable _ => true | _ => false end.

(** The text that the normalizer hands to [JSON.parse]. *)
Definition normalized_text (completion : jsstring) : jsstring :=
  trim (strip_fences completion).

(** [s || d] for a field that is absent or holds a string. *)
Definition text_or (d : jsstring) (field : option jsstring) : jsstring :=
  match field with
  | Some (c :: s) => c :: s
  | _ => d
  end.

(** ** Inputs of the concrete runs *)

Definition quoted (s : jsstring) : jsstring := dq ++ s ++ dq.

(** The inner text of scenario 2 of the specification: [props.title] is [X]
    and [wrappers.router] is [true]. *)
Definition scenario_text : jsstring :=
  js "{" ++ quoted (js "props") ++ js ":{" ++ quoted (js "title") ++ js ":"
  ++ quoted (js "X") ++ js "}," ++ quoted (js "wrappers") ++ js ":{"
  ++ quoted (js "router") ++ js ":true}}".

Definition scenario_value : json :=
  JObject [(js "props", JObject [(js "title", JString (js "X"))]);
           (js "wrappers", JObject [(js "router", JBool true)])].

(** The completion with the number [k] under [props.n] and no wrappers, and
    its value. *)
Definition numbered_completion (k : nat) : jsstring :=
  js "{" ++ quoted (js "props") ++ js ":{" ++ quoted (js "n") ++ js ":"
  ++ index_key k ++ js "}," ++ quoted (js "wrappers") ++ js ":{}}".

Definition numbered_value (k : nat) : json :=
  JObject [(js "props", JObject [(js "n", JNumber (index_key k))]);
           (js "wrappers", JObject [])].

(** A service that answers request [k] with [numbered_completion k]. *)
Definition numbering_model : service := fun k _ => Some (numbered_completion k).

(** A disk that takes every write, and one that refuses every write. *)
Definition working_disk : sink := fun _ _ => true.

Definition full_disk : sink := fun _ _ => false.

(** A file system in which every path is a readable component. *)
Definition all_readable : filesystem :=
  fun _ => Readable (js "export default () => null").

(** A file system that has every path but [gone.tsx]. *)
Definition one_missing : filesystem :=
  fun p => if jsstring_eqb p (js "gone.tsx") then Missing else all_readable p.

(** A service whose first request is refused, whose second is answered by the
    empty string, and which then answers as [numbering_model]. *)
Definition failing_twice : service :=
  fun k p =>
    match k with
    | O => None
    | S O => Some []
    | _ => numbering_model k p
    end.

(** A service that answers as [numbering_model], except that request 1 is
    refused. *)
Definition failing_second : service :=
  fun k p =>
    match k with
    | S O => None
    | _ => numbering_model k p
    end.

(** The service of scenario 2 of the specification: a fenced block for the
    first request, the empty string for every other. *)
Definition fenced_then_empty : service :=
  fun k _ =>
    match k with
    | O => Some (fenced (js "json") scenario_text)
    | _ => Some []
    end.

(** Only a short [README.md]. *)
Definition readme_only : filesystem :=
  fun p => if jsstring_eqb p (js "README.md") then Readable (js "Hi") else Missing.

(** A file system in which [locked.tsx] exists and cannot be read. *)
Definition one_unreadable : filesystem :=
  fun p => if jsstring_eqb p (js "locked.tsx") then Unreadable else all_readable p.

(** A manifest with a name, no description and two dependencies, beside a
    short [README.md]. *)
Definition manifest_text : jsstring :=
  js "{" ++ quoted (js "name") ++ js ":" ++ quoted (js "shop") ++ js ","
  ++ quoted (js "dependencies") ++ js ":{" ++ quoted (js "react") ++ js ":"
  ++ quoted (js "^18.0.0") ++ js "," ++ quoted (js "redux") ++ js ":"
  ++ quoted (js "^5.0.0") ++ js "}}".

Definition with_manifest : filesystem :=
  fun p =>
    if jsstring_eqb p (js "package.json") then Readable manifest_text
    else if jsstring_eqb p (js "README.md") then Readable (js "Hi")
    else Missing.

(** A manifest that holds [null], beside a short [README.md]. *)
Definition null_manifest : filesystem :=
  fun p =>
    if jsstring_eqb p (js "package.json") then Readable (js "null")
    else if jsstring_eqb p (js "README.md") then Readable (js "Hi")
    else Missing.

(** A manifest beside a [README.md] that cannot be read. *)
Definition locked_readme : filesystem :=
  fun p =>
    if jsstring_eqb p (js "package.json") then Readable manifest_text
    else if jsstring_eqb p (js "README.md") then Unreadable
    else Missing.

(** * Properties *)

(** ** Strings *)

Lemma jsstring_eqb_spec (a b : jsstring) : reflect (a = b) (jsstring_eqb a b).
Proof.
  revert b; induction a as [|x a IH]; intros [|y b]; simpl;
    try (constructor; congruence).
  destruct (N.eqb_spec x y) as [->|Hxy]; simpl.
  - destruct (IH b) as [->|Hab]; constructor; congruence.
  - constructor; congruence.
Qed.

Lemma jsstring_eqb_refl (a : jsstring) : jsstring_eqb a a = true.
Proof. destruct (jsstring_eqb_spec a a); congruence. Qed.

Lemma jsstring_eqb_neq (a b : jsstring) : a <> b -> jsstring_eqb a b = false.
Proof. destruct (jsstring_eqb_spec a b); congruence. Qed.

Lemma starts_with_prefix (pat r : jsstring) : starts_with pat (pat ++ r) = true.
Proof.
  induction pat as [|p pat IH]; simpl; [reflexivity|].
  now rewrite N.eqb_refl, IH.
Qed.

Lemma starts_with_split (pat s : jsstring) :
  starts_with pat s = true -> exists r, s = pat ++ r.
Proof.
  revert s; induction pat as [|p pat IH]; intros s H; simpl in *.
  - now exists s.
  - destruct s as [|c s]; [discriminate|].
    apply andb_prop in H as [Hpc Hrest].
    apply N.eqb_eq in Hpc as <-.
    destruct (IH _ Hrest) as [r ->]. now exists r.
Qed.

Lemma remove_matches_skip (pat p r : jsstring) :
  remove_matches pat (List.length p) (p ++ r) = remove_matches pat 0 r.
Proof. induction p as [|c p IH]; simpl; auto. Qed.

(** A match at the head is dropped. *)
Lemma replace_all_match (pat r : jsstring) :
  pat <> [] ->
  replace_all_by_empty pat (pat ++ r) = replace_all_by_empty pat r.
Proof.
  intros Hne. destruct pat as [|p pat]; [congruence|].
  unfold replace_all_by_empty.
  change ((p :: pat) ++ r) with (p :: (pat ++ r)).
  cbn [remove_matches].
  change (p :: pat ++ r) with ((p :: pat) ++ r).
  rewrite starts_with_prefix.
  cbn [List.length Nat.pred]. apply remove_matches_skip.
Qed.

(** A code unit at which no match starts is kept. *)
Lemma replace_all_keep (pat : jsstring) (c : code_unit) (s : jsstring) :
  starts_with pat (c :: s) = false ->
  replace_all_by_empty pat (c :: s) = c :: replace_all_by_empty pat s.
Proof. intros H. unfold replace_all_by_empty. cbn [remove_matches]. now rewrite H. Qed.

Lemma replace_all_nil (pat : jsstring) : replace_all_by_empty pat [] = [].
Proof. reflexivity. Qed.

(** Induction along the scan of [replace]: at each position either a match
    starts, and the scan goes on after it, or the code unit is kept. *)
Lemma scan_ind (pat : jsstring) (P : jsstring -> Prop) :
  pat <> [] ->
  P [] ->
  (forall r, P r -> P (pat ++ r)) ->
  (forall c s, starts_with pat (c :: s) = false -> P s -> P (c :: s)) ->
  forall s, P s.
Proof.
  intros Hne Hnil Hmatch Hkeep s.
  remember (List.length s) as n eqn:Hn.
  revert s Hn. induction n as [n IH] using lt_wf_ind. intros s Hn.
  destruct s as [|c s]; [exact Hnil|].
  destruct (starts_with pat (c :: s)) eqn:Hsw.
  - destruct (starts_with_split _ _ Hsw) as [r Hr]. rewrite Hr.
    apply Hmatch. apply (IH (List.length r)); [|reflexivity].
    subst n. rewrite Hr, length_app.
    destruct pat; [congruence|simpl; lia].
  - apply Hkeep; [exact Hsw|].
    apply (IH (List.length s)); [subst n; simpl; lia|reflexivity].
Qed.

Lemma fence_nonempty : fence <> [].
Proof. discriminate. Qed.

Lemma fence_json_nonempty : fence_json <> [].
Proof. discriminate. Qed.

(** A text without a match is left as it is. *)
Lemma replace_all_absent (pat s : jsstring) :
  pat <> [] -> includes pat s = false -> replace_all_by_empty pat s = s.
Proof.
  intros Hne. induction s as [|c s IH]; intros H; [reflexivity|].
  cbn [includes] in H. apply orb_false_iff in H as [Hsw Hin].
  rewrite replace_all_keep by exact Hsw. now rewrite IH.
Qed.

Lemma starts_with_app_l (p q s : jsstring) :
  starts_with (p ++ q) s = true -> starts_with p s = true.
Proof.
  revert s; induction p as [|x p IH]; intros s H; [reflexivity|].
  destruct s as [|c s]; simpl in *; [discriminate|].
  apply andb_prop in H as [H1 H2]. rewrite H1. simpl. now apply IH.
Qed.

Lemma includes_app_l (p q s : jsstring) :
  includes p s = false -> includes (p ++ q) s = false.
Proof.
  induction s as [|c s IH]; intros H.
  - simpl in *. destruct (starts_with (p ++ q) []) eqn:E; [|reflexivity].
    apply starts_with_app_l in E. congruence.
  - cbn [includes] in *. apply orb_false_iff in H as [Hsw Hin].
    rewrite (IH Hin), orb_false_r.
    destruct (starts_with (p ++ q) (c :: s)) eqn:E; [|reflexivity].
    apply starts_with_app_l in E. congruence.
Qed.

Lemma starts_with_cons (p : code_unit) (pat : jsstring) (c : code_unit) (s : jsstring) :
  starts_with (p :: pat) (c :: s) = (p =? c) && starts_with pat s.
Proof. reflexivity. Qed.

Lemma starts_with_fence_cons (c : code_unit) (s : jsstring) :
  starts_with fence (c :: s) = (backtick =? c) && starts_with two_backticks s.
Proof. reflexivity. Qed.

(** Deleting the fences of a text that does not start with two backticks
    gives a text that does not start with two backticks. *)
Lemma replace_fence_head (s : jsstring) :
  starts_with two_backticks s = false ->
  starts_with two_backticks (replace_all_by_empty fence s) = false.
Proof.
  intros H. destruct s as [|a s]; [reflexivity|].
  unfold two_backticks in *.
  destruct (N.eqb_spec backtick a) as [<-|Ha].
  - destruct s as [|b s]; [reflexivity|].
    rewrite !starts_with_cons, N.eqb_refl in H. cbn [andb starts_with] in H.
    rewrite andb_true_r in H.
    rewrite replace_all_keep
      by (unfold fence; now rewrite !starts_with_cons, H, andb_false_r).
    rewrite replace_all_keep
      by (unfold fence; now rewrite !starts_with_cons, H).
    now rewrite !starts_with_cons, H, andb_false_r.
  - apply N.eqb_neq in Ha.
    rewrite replace_all_keep
      by (unfold fence; now rewrite !starts_with_cons, Ha).
    now rewrite !starts_with_cons, Ha.
Qed.

(** After [replace(/```/g, '')] no run of three backticks is left. *)
Lemma replace_fence_complete (s : jsstring) :
  includes fence (replace_all_by_empty fence s) = false.
Proof.
  pattern s. apply (scan_ind fence); clear s;
    [exact fence_nonempty| |intros r IH|intros c s Hsw IH].
  - reflexivity.
  - now rewrite replace_all_match by exact fence_nonempty.
  - rewrite replace_all_keep by exact Hsw.
    cbn [includes]. rewrite IH, orb_false_r.
    rewrite starts_with_fence_cons in *.
    destruct (backtick =? c); [simpl in *|reflexivity].
    now apply replace_fence_head.
Qed.

Lemma strip_fences_complete (text : jsstring) :
  includes fence (strip_fences text) = false.
Proof. apply replace_fence_complete. Qed.

Lemma strip_fences_absent (text : jsstring) :
  includes fence text = false -> strip_fences text = text.
Proof.
  intros H. unfold strip_fences.
  rewrite (replace_all_absent fence_json) by
    (try exact fence_json_nonempty; now apply includes_app_l).
  now apply replace_all_absent; [exact fence_nonempty|].
Qed.

Lemma strip_fences_idempotent (text : jsstring) :
  strip_fences (strip_fences text) = strip_fences text.
Proof. apply strip_fences_absent, strip_fences_complete. Qed.

(** *** Fenced blocks *)

(** A code unit that is not part of the pattern stops every match. *)
Lemma starts_with_across (pat body : jsstring) (x : code_unit) (rest : jsstring) :
  ~ In x pat ->
  starts_with pat (body ++ x :: rest) = true -> starts_with pat body = true.
Proof.
  intros Hx. revert body Hx; induction pat as [|p pat IH]; intros body Hx H.
  - reflexivity.
  - destruct body as [|c b].
    + simpl in H. apply andb_prop in H as [H _].
      apply N.eqb_eq in H. subst. exfalso. apply Hx. now left.
    + simpl in *. apply andb_prop in H as [H1 H2]. rewrite H1. simpl.
      apply IH; [|exact H2]. intros Hin. apply Hx. now right.
Qed.

Lemma starts_with_foreign (pat : jsstring) (x : code_unit) (rest : jsstring) :
  pat <> [] -> ~ In x pat -> starts_with pat (x :: rest) = false.
Proof.
  intros Hne Hx. destruct pat as [|p pat]; [congruence|].
  simpl. destruct (N.eqb_spec p x) as [->|]; [|reflexivity].
  exfalso. apply Hx. now left.
Qed.

Lemma includes_across (pat body : jsstring) (x : code_unit) (rest : jsstring) :
  pat <> [] -> ~ In x pat -> includes pat body = false ->
  includes pat (body ++ x :: rest) = includes pat rest.
Proof.
  intros Hne Hx. induction body as [|c b IH]; intros H.
  - cbn [app includes]. now rewrite starts_with_foreign.
  - cbn [includes] in H. apply orb_false_iff in H as [Hsw Hin].
    change ((c :: b) ++ x :: rest) with (c :: (b ++ x :: rest)).
    cbn [includes]. rewrite (IH Hin).
    destruct (starts_with pat (c :: b ++ x :: rest)) eqn:E; [|reflexivity].
    apply (starts_with_across pat (c :: b)) in E; [congruence|exact Hx].
Qed.

Lemma replace_all_across (pat body : jsstring) (x : code_unit) (rest : jsstring) :
  pat <> [] -> ~ In x pat -> includes pat body = false ->
  replace_all_by_empty pat (body ++ x :: rest)
  = body ++ x :: replace_all_by_empty pat rest.
Proof.
  intros Hne Hx. induction body as [|c b IH]; intros H.
  - cbn [app]. now rewrite replace_all_keep by now apply starts_with_foreign.
  - cbn [includes] in H. apply orb_false_iff in H as [Hsw Hin].
    change ((c :: b) ++ x :: rest) with (c :: (b ++ x :: rest)).
    rewrite replace_all_keep.
    + now rewrite (IH Hin).
    + destruct (starts_with pat (c :: b ++ x :: rest)) eqn:E; [|reflexivity].
      apply (starts_with_across pat (c :: b)) in E; [congruence|exact Hx].
Qed.

Lemma lf_not_in_fence : ~ In 10 fence.
Proof. intros H. simpl in H. intuition discriminate. Qed.

Lemma lf_not_in_fence_json : ~ In 10 fence_json.
Proof. intros H. simpl in H. intuition discriminate. Qed.

Lemma strip_fences_inner (body : jsstring) :
  includes fence body = false ->
  strip_fences (lf ++ body ++ lf ++ fence) = lf ++ body ++ lf.
Proof.
  intros H. unfold strip_fences.
  assert (Hj : includes fence_json body = false) by now apply includes_app_l.
  rewrite (replace_all_absent fence_json).
  - change (lf ++ body ++ lf ++ fence) with ([] ++ 10 :: (body ++ 10 :: fence)).
    rewrite (replace_all_across fence []);
      [|exact fence_nonempty|exact lf_not_in_fence|reflexivity].
    rewrite (replace_all_across fence body);
      [|exact fence_nonempty|exact lf_not_in_fence|exact H].
    change fence with (fence ++ []) at 2.
    rewrite replace_all_match by exact fence_nonempty.
    reflexivity.
  - exact fence_json_nonempty.
  - change (lf ++ body ++ lf ++ fence) with ([] ++ 10 :: (body ++ 10 :: fence)).
    rewrite (includes_across fence_json []);
      [|exact fence_json_nonempty|exact lf_not_in_fence_json|reflexivity].
    rewrite (includes_across fence_json body);
      [reflexivity|exact fence_json_nonempty|exact lf_not_in_fence_json|exact Hj].
Qed.

Lemma strip_fences_fenced_json (body : jsstring) :
  includes fence body = false ->
  strip_fences (fenced (js "json") body) = lf ++ body ++ lf.
Proof.
  intros H. unfold fenced.
  rewrite <- (strip_fences_inner body H).
  unfold strip_fences at 1.
  rewrite app_assoc. change (fence ++ js "json") with fence_json.
  now rewrite replace_all_match by exact fence_json_nonempty.
Qed.

Lemma strip_fences_fenced_plain (body : jsstring) :
  includes fence body = false ->
  strip_fences (fenced [] body) = lf ++ body ++ lf.
Proof.
  intros H. unfold fenced. cbn [app].
  set (inner := lf ++ body ++ lf ++ fence).
  assert (Hi : includes fence_json inner = false).
  { unfold inner.
    change (lf ++ body ++ lf ++ fence) with ([] ++ 10 :: (body ++ 10 :: fence)).
    rewrite (includes_across fence_json []);
      [|exact fence_json_nonempty|exact lf_not_in_fence_json|reflexivity].
    rewrite (includes_across fence_json body);
      [reflexivity|exact fence_json_nonempty|exact lf_not_in_fence_json|].
    now apply includes_app_l. }
  unfold strip_fences.
  rewrite (replace_all_absent fence_json).
  - rewrite replace_all_match by exact fence_nonempty.
    pose proof (strip_fences_inner body H) as Hs. unfold strip_fences in Hs.
    fold inner in Hs.
    rewrite (replace_all_absent fence_json inner fence_json_nonempty Hi) in Hs.
    exact Hs.
  - exact fence_json_nonempty.
  - unfold inner, lf in *. cbn [app] in *.
    unfold fence at 1. cbn [app includes].
    cbn [includes] in Hi. rewrite Hi. reflexivity.
Qed.

(** *** [substring] and [trim] *)

Lemma substring_from_start (s : jsstring) (n : nat) :
  substring s 0 n = firstn n s.
Proof.
  unfold substring.
  rewrite Nat.min_0_l, Nat.max_0_l, Nat.sub_0_r. change (skipn 0 s) with s.
  destruct (Nat.le_ge_cases n (List.length s)) as [H|H].
  - now rewrite Nat.min_l.
  - rewrite Nat.min_r by exact H. rewrite firstn_all. symmetry.
    now apply firstn_all2.
Qed.

Lemma trim_start_snoc (s : jsstring) (c : code_unit) :
  is_js_space c = true ->
  trim_start (s ++ [c])
  = match trim_start s with [] => [] | _ :: _ => trim_start s ++ [c] end.
Proof.
  intros Hc. induction s as [|a s IH]; simpl.
  - now rewrite Hc.
  - destruct (is_js_space a); [exact IH|reflexivity].
Qed.

Lemma trim_snoc (s : jsstring) (c : code_unit) :
  is_js_space c = true -> trim (s ++ [c]) = trim s.
Proof.
  intros Hc. unfold trim, trim_end. rewrite trim_start_snoc by exact Hc.
  destruct (trim_start s) as [|a t] eqn:E; [reflexivity|].
  rewrite rev_app_distr. cbn [rev app trim_start]. now rewrite Hc.
Qed.

Lemma trim_cons (s : jsstring) (c : code_unit) :
  is_js_space c = true -> trim (c :: s) = trim s.
Proof. intros Hc. unfold trim. cbn [trim_start]. now rewrite Hc. Qed.

Lemma trim_between_lf (body : jsstring) : trim (lf ++ body ++ lf) = trim body.
Proof.
  unfold lf. cbn [app]. rewrite trim_cons by reflexivity.
  now rewrite trim_snoc by reflexivity.
Qed.

(** A block fenced with the tag [json], or with no tag, is read as its body. *)
Lemma Response_Normalizer_fenced (body : jsstring) :
  includes fence body = false ->
  Response_Normalizer (fenced (js "json") body) = JSON_parse (trim body)
  /\ Response_Normalizer (fenced [] body) = JSON_parse (trim body).
Proof.
  intros H. unfold Response_Normalizer.
  rewrite strip_fences_fenced_json, strip_fences_fenced_plain by exact H.
  now rewrite trim_between_lf.
Qed.

(** ** [JSON.parse]: the fuel is enough *)

Lemma skip_ws_length (s : jsstring) : (List.length (skip_ws s) <= List.length s)%nat.
Proof.
  induction s as [|c s IH]; simpl; [lia|].
  destruct (is_json_ws c); simpl; lia.
Qed.

Lemma parse_string_chars_length (s cs rest : jsstring) :
  parse_string_chars s = Some (cs, rest) -> (List.length rest < List.length s)%nat.
Proof.
  remember (List.length s) as n eqn:Hn. revert s cs rest Hn.
  induction n as [n IH] using lt_wf_ind. intros s cs rest Hn H.
  destruct s as [|c r]; [discriminate|]. simpl in H.
  destruct (c =? 34); [injection H as _ <-; simpl in *; lia|].
  destruct (c =? 92).
  - destruct r as [|e r1]; [discriminate|].
    destruct (e =? 117).
    + destruct r1 as [|h1 [|h2 [|h3 [|h4 r2]]]]; try discriminate.
      destruct (hex4 h1 h2 h3 h4); [|discriminate].
      destruct (parse_string_chars r2) as [[cs' rest']|] eqn:E; [|discriminate].
      injection H as _ <-.
      apply (IH (List.length r2)) in E; simpl in *; try lia.
    + destruct (simple_escape e); [|discriminate].
      destruct (parse_string_chars r1) as [[cs' rest']|] eqn:E; [|discriminate].
      injection H as _ <-.
      apply (IH (List.length r1)) in E; simpl in *; try lia.
  - destruct (c <? 32); [discriminate|].
    destruct (parse_string_chars r) as [[cs' rest']|] eqn:E; [|discriminate].
    injection H as _ <-.
    apply (IH (List.length r)) in E; simpl in *; try lia.
Qed.

Lemma take_digits_length (s ds rest : jsstring) :
  take_digits s = (ds, rest) -> (List.length rest <= List.length s)%nat.
Proof.
  revert ds rest; induction s as [|c s IH]; intros ds rest H; simpl in H.
  - injection H as _ <-. simpl. lia.
  - destruct (is_digit c).
    + destruct (take_digits s) as [ds' rest'] eqn:E. injection H as _ <-.
      specialize (IH _ _ eq_refl). simpl. lia.
    + injection H as _ <-. lia.
Qed.

Lemma parse_sign_length (s sg rest : jsstring) :
  parse_sign s = (sg, rest) -> (List.length rest <= List.length s)%nat.
Proof.
  unfold parse_sign. destruct s as [|c s]; [intros [= _ <-]; simpl; lia|].
  destruct (c =? 45); intros [= _ <-]; simpl; lia.
Qed.

Lemma parse_int_part_length (s ip rest : jsstring) :
  parse_int_part s = Some (ip, rest) -> (List.length rest < List.length s)%nat.
Proof.
  unfold parse_int_part. destruct s as [|c s]; [discriminate|].
  destruct (c =? 48); [intros [= _ <-]; simpl; lia|].
  destruct (is_digit c); [|discriminate].
  destruct (take_digits s) as [ds r] eqn:E. apply take_digits_length in E.
  intros [= _ <-]. simpl. lia.
Qed.

Lemma parse_fraction_length (s fp rest : jsstring) :
  parse_fraction s = Some (fp, rest) -> (List.length rest <= List.length s)%nat.
Proof.
  unfold parse_fraction. destruct s as [|c s]; [intros [= _ <-]; simpl; lia|].
  destruct (c =? 46); [|intros [= _ <-]; simpl; lia].
  destruct (take_digits s) as [ds r] eqn:E. apply take_digits_length in E.
  destruct ds; [discriminate|]. intros [= _ <-]. simpl. lia.
Qed.

Lemma parse_exponent_length (s ep rest : jsstring) :
  parse_exponent s = Some (ep, rest) -> (List.length rest <= List.length s)%nat.
Proof.
  unfold parse_exponent. destruct s as [|c s]; [intros [= _ <-]; simpl; lia|].
  destruct ((c =? 101) || (c =? 69)); [|intros [= _ <-]; simpl; lia].
  destruct (parse_exponent_sign s) as [sg s1] eqn:E0.
  assert (Hs : (List.length s1 <= List.length s)%nat).
  { unfold parse_exponent_sign in E0. destruct s as [|d s'']; [injection E0 as _ <-; simpl; lia|].
    destruct ((d =? 43) || (d =? 45)); injection E0 as _ <-; simpl; lia. }
  destruct (take_digits s1) as [ds r] eqn:E. apply take_digits_length in E.
  destruct ds; [discriminate|]. intros [= _ <-]. simpl. lia.
Qed.

Lemma parse_number_length (s lx rest : jsstring) :
  parse_number s = Some (lx, rest) -> (List.length rest < List.length s)%nat.
Proof.
  unfold parse_number.
  destruct (parse_sign s) as [sg s1] eqn:E1. apply parse_sign_length in E1.
  destruct (parse_int_part s1) as [[ip s2]|] eqn:E2; [|discriminate].
  apply parse_int_part_length in E2.
  destruct (parse_fraction s2) as [[fp s3]|] eqn:E3; [|discriminate].
  apply parse_fraction_length in E3.
  destruct (parse_exponent s3) as [[ep s4]|] eqn:E4; [|discriminate].
  apply parse_exponent_length in E4.
  intros [= _ <-]. lia.
Qed.

Lemma parse_literal_length (s : jsstring) (v : json) (rest : jsstring) :
  parse_literal s = Some (v, rest) -> (List.length rest < List.length s)%nat.
Proof.
  unfold parse_literal.
  destruct (starts_with (js "true") s) eqn:E1;
    [|destruct (starts_with (js "false") s) eqn:E2;
      [|destruct (starts_with (js "null") s) eqn:E3; [|discriminate]]];
    intros [= _ <-];
    match goal with
    | H : starts_with _ s = true |- _ =>
        apply starts_with_split in H; destruct H as [r ->]
    end; simpl; lia.
Qed.

(** Fuel that is enough for a text stays enough when more is given, and twice
    the number of code units read is enough. *)
Lemma parse_fuel (n : nat) :
  (forall s v r,
      parse_value n s = Some (v, r) ->
      (List.length r < List.length s)%nat
      /\ forall m, (2 * (List.length s - List.length r) <= m)%nat ->
                   parse_value m s = Some (v, r))
  /\ (forall s acc v r,
         parse_elements n s acc = Some (v, r) ->
         (List.length r < List.length s)%nat
         /\ forall m, (2 * (List.length s - List.length r) + 1 <= m)%nat ->
                      parse_elements m s acc = Some (v, r))
  /\ (forall s acc v r,
         parse_members n s acc = Some (v, r) ->
         (List.length r < List.length s)%nat
         /\ forall m, (2 * (List.length s - List.length r) + 1 <= m)%nat ->
                      parse_members m s acc = Some (v, r)).
Proof.
  induction n as [|n (IHv & IHe & IHm)]; [repeat split; discriminate|].
  split; [|split].
  - intros s v r H. cbn [parse_value] in H.
    pose proof (skip_ws_length s) as Hs.
    destruct (skip_ws s) as [|c r0] eqn:Es; [discriminate|].
    destruct (c =? 123) eqn:Ec1.
    { pose proof (skip_ws_length r0) as Hr0.
      destruct (skip_ws r0) as [|d r'] eqn:Er; [discriminate|].
      destruct (d =? 125) eqn:Ed.
      - injection H as <- <-. cbn [List.length] in *. split; [lia|].
        intros [|m] Hm; [lia|]. cbn [parse_value]. now rewrite Es, Ec1, Er, Ed.
      - apply IHm in H as [Hlen Hfuel]. cbn [List.length] in *. split; [lia|].
        intros [|m] Hm; [lia|]. cbn [parse_value]. rewrite Es, Ec1, Er, Ed.
        apply Hfuel. cbn [List.length]. lia. }
    destruct (c =? 91) eqn:Ec2.
    { pose proof (skip_ws_length r0) as Hr0.
      destruct (skip_ws r0) as [|d r'] eqn:Er; [discriminate|].
      destruct (d =? 93) eqn:Ed.
      - injection H as <- <-. cbn [List.length] in *. split; [lia|].
        intros [|m] Hm; [lia|]. cbn [parse_value]. now rewrite Es, Ec1, Ec2, Er, Ed.
      - apply IHe in H as [Hlen Hfuel]. cbn [List.length] in *. split; [lia|].
        intros [|m] Hm; [lia|]. cbn [parse_value]. rewrite Es, Ec1, Ec2, Er, Ed.
        apply Hfuel. cbn [List.length]. lia. }
    destruct (c =? 34) eqn:Ec3.
    { destruct (parse_string_chars r0) as [[cs rest]|] eqn:E; [|discriminate].
      injection H as <- <-. pose proof (parse_string_chars_length _ _ _ E) as HE.
      cbn [List.length] in *. split; [lia|].
      intros [|m] Hm; [lia|]. cbn [parse_value]. now rewrite Es, Ec1, Ec2, Ec3, E. }
    destruct ((c =? 45) || is_digit c) eqn:Ec4.
    { destruct (parse_number (c :: r0)) as [[lx rest]|] eqn:E; [|discriminate].
      injection H as <- <-. pose proof (parse_number_length _ _ _ E) as HE.
      cbn [List.length] in *. split; [lia|].
      intros [|m] Hm; [lia|]. cbn [parse_value].
      now rewrite Es, Ec1, Ec2, Ec3, Ec4, E. }
    pose proof (parse_literal_length _ _ _ H) as E.
    cbn [List.length] in *. split; [lia|].
    intros [|m] Hm; [lia|]. cbn [parse_value]. now rewrite Es, Ec1, Ec2, Ec3, Ec4.
  - intros s acc v r H. cbn [parse_elements] in H.
    destruct (parse_value n s) as [[v1 r1]|] eqn:Ev; [|discriminate].
    apply IHv in Ev as [Hlen1 Hfuel1].
    pose proof (skip_ws_length r1) as Hr1.
    destruct (skip_ws r1) as [|c r'] eqn:Er; [discriminate|].
    destruct (c =? 44) eqn:Ec1.
    + apply IHe in H as [Hlen Hfuel]. cbn [List.length] in *. split; [lia|].
      intros [|m] Hm; [lia|]. cbn [parse_elements].
      rewrite Hfuel1 by lia. rewrite Er, Ec1. apply Hfuel. lia.
    + destruct (c =? 93) eqn:Ec2; [|discriminate].
      injection H as <- <-. cbn [List.length] in *. split; [lia|].
      intros [|m] Hm; [lia|]. cbn [parse_elements].
      rewrite Hfuel1 by lia. now rewrite Er, Ec1, Ec2.
  - intros s acc v r H. cbn [parse_members] in H.
    pose proof (skip_ws_length s) as Hs.
    destruct (skip_ws s) as [|q r0] eqn:Es; [discriminate|].
    destruct (q =? 34) eqn:Eq; [|discriminate].
    destruct (parse_string_chars r0) as [[k r1]|] eqn:Ek; [|discriminate].
    pose proof (parse_string_chars_length _ _ _ Ek) as Hk.
    pose proof (skip_ws_length r1) as Hr1.
    destruct (skip_ws r1) as [|c r2] eqn:Er1; [discriminate|].
    destruct (c =? 58) eqn:Ec; [|discriminate].
    destruct (parse_value n r2) as [[v1 r3]|] eqn:Ev; [|discriminate].
    apply IHv in Ev as [Hlen1 Hfuel1].
    pose proof (skip_ws_length r3) as Hr3.
    destruct (skip_ws r3) as [|d r4] eqn:Er3; [discriminate|].
    destruct (d =? 44) eqn:Ed1.
    + apply IHm in H as [Hlen Hfuel]. cbn [List.length] in *. split; [lia|].
      intros [|m] Hm; [lia|]. cbn [parse_members].
      rewrite Es, Eq, Ek, Er1, Ec. rewrite Hfuel1 by lia.
      rewrite Er3, Ed1. apply Hfuel. lia.
    + destruct (d =? 125) eqn:Ed2; [|discriminate].
      injection H as <- <-. cbn [List.length] in *. split; [lia|].
      intros [|m] Hm; [lia|]. cbn [parse_members].
      rewrite Es, Eq, Ek, Er1, Ec. rewrite Hfuel1 by lia.
      now rewrite Er3, Ed1, Ed2.
Qed.

(** The fuel of [JSON_parse] is enough: whatever any amount of fuel parses,
    [JSON_parse] parses. *)
Lemma JSON_parse_complete (n : nat) (text : jsstring) (v : json) (rest : jsstring) :
  parse_value n text = Some (v, rest) -> skip_ws rest = [] ->
  JSON_parse text = Some v.
Proof.
  intros H Hrest. unfold JSON_parse.
  destruct (parse_fuel n) as (Hv & _ & _).
  destruct (Hv _ _ _ H) as [Hlen Hfuel].
  rewrite Hfuel by lia. now rewrite Hrest.
Qed.

Lemma JSON_parse_spec (text : jsstring) (v : json) :
  JSON_parse text = Some v
  <-> exists n rest, parse_value n text = Some (v, rest) /\ skip_ws rest = [].
Proof.
  split.
  - unfold JSON_parse. intros H.
    destruct (parse_value _ text) as [[v' rest]|] eqn:E; [|discriminate].
    destruct (skip_ws rest) eqn:Er; [|discriminate].
    injection H as ->. eauto.
  - intros (n & rest & H & Hrest). eapply JSON_parse_complete; eauto.
Qed.

(** ** Own properties *)

Lemma get_own_define_same (k : jsstring) (v : json) (ps : properties_of) :
  get_own k (define_own k v ps) = Some v.
Proof.
  induction ps as [|[k' v'] ps IH]; simpl.
  - now rewrite jsstring_eqb_refl.
  - destruct (jsstring_eqb_spec k k') as [->|Hne]; simpl.
    + now rewrite jsstring_eqb_refl.
    + now rewrite jsstring_eqb_neq.
Qed.

Lemma get_own_define_other (g k : jsstring) (v : json) (ps : properties_of) :
  g <> k -> get_own g (define_own k v ps) = get_own g ps.
Proof.
  intros Hne. induction ps as [|[k' v'] ps IH]; simpl.
  - now rewrite jsstring_eqb_neq.
  - destruct (jsstring_eqb_spec k k') as [->|Hkk']; simpl.
    + now rewrite !jsstring_eqb_neq.
    + now rewrite IH.
Qed.

Lemma has_own_get_own (k : jsstring) (ps : properties_of) :
  has_own k ps = match get_own k ps with Some _ => true | None => false end.
Proof.
  induction ps as [|[k' v'] ps IH]; simpl; [reflexivity|].
  destruct (jsstring_eqb k k'); simpl; auto.
Qed.

Lemma has_own_In (k : jsstring) (ps : properties_of) :
  has_own k ps = true <-> In k (map fst ps).
Proof.
  induction ps as [|[k' v'] ps IH]; simpl; [intuition discriminate|].
  destruct (jsstring_eqb_spec k k') as [->|Hne]; simpl.
  - intuition.
  - rewrite IH. intuition congruence.
Qed.

Lemma define_own_fresh (k : jsstring) (v : json) (ps : properties_of) :
  has_own k ps = false -> define_own k v ps = ps ++ [(k, v)].
Proof.
  induction ps as [|[k' v'] ps IH]; simpl; [reflexivity|].
  destruct (jsstring_eqb k k'); simpl; [discriminate|].
  intros H. now rewrite IH.
Qed.

Lemma define_own_keys (k : jsstring) (v : json) (ps : properties_of) :
  map fst (define_own k v ps)
  = map fst ps ++ (if has_own k ps then [] else [k]).
Proof.
  induction ps as [|[k' v'] ps IH]; simpl; [reflexivity|].
  destruct (jsstring_eqb_spec k k') as [->|Hne]; simpl.
  - now rewrite app_nil_r.
  - now rewrite IH.
Qed.

(** An assignment to a key other than [__proto__] is a definition of an own
    property, whatever the prototype. *)
Lemma assign_ordinary (k : jsstring) (v : json) (o : jsobject) :
  k <> proto_key ->
  assign k v o = {| own := define_own k v (own o); proto := proto o |}.
Proof.
  intros Hk. unfold assign. rewrite (jsstring_eqb_neq _ _ Hk). simpl.
  now destruct (has_own k (own o)).
Qed.

Lemma own_set_prototype (v : json) (o : jsobject) : own (set_prototype v o) = own o.
Proof. now destruct v. Qed.

(** An assignment leaves the properties of all other keys as they are. *)
Lemma get_own_assign_other (g k : jsstring) (v : json) (o : jsobject) :
  g <> k -> get_own g (own (assign k v o)) = get_own g (own o).
Proof.
  intros Hne. unfold assign.
  destruct (has_own k (own o)); simpl.
  - now apply get_own_define_other.
  - destruct (jsstring_eqb k proto_key && inherits_proto_accessor (proto o)).
    + now rewrite own_set_prototype.
    + now apply get_own_define_other.
Qed.

(** An assignment keeps the keys in their places and adds at most its own key,
    after all others. *)
Lemma assign_keys (k : jsstring) (v : json) (o : jsobject) :
  exists ext, map fst (own (assign k v o)) = map fst (own o) ++ ext
              /\ (ext = [] \/ ext = [k]).
Proof.
  unfold assign. destruct (has_own k (own o)) eqn:E; simpl.
  - exists []. rewrite define_own_keys, E. auto.
  - destruct (jsstring_eqb k proto_key && inherits_proto_accessor (proto o)).
    + exists []. rewrite own_set_prototype, app_nil_r. auto.
    + exists [k]. simpl. rewrite define_own_keys, E. auto.
Qed.

(** *** Enumeration *)

Lemma In_insert_by_index (n : N) (e x : jsstring * json) (l : list (N * (jsstring * json))) :
  In x (map snd (insert_by_index n e l)) <-> x = e \/ In x (map snd l).
Proof.
  induction l as [|[m e'] l IH]; simpl.
  - intuition.
  - destruct (n <=? m); simpl; [intuition|].
    rewrite IH. intuition.
Qed.

Lemma In_index_entries (x : jsstring * json) (ps : properties_of) :
  In x (map snd (index_entries ps)) <-> In x ps /\ is_array_index (fst x) = true.
Proof.
  induction ps as [|[k v] ps IH]; simpl; [intuition|].
  unfold is_array_index in *.
  destruct (array_index k) as [n|] eqn:E.
  - rewrite In_insert_by_index, IH. split.
    + intros [->|[H1 H2]]; [simpl; rewrite E; auto|auto].
    + intros [[<-|H1] H2]; auto.
  - rewrite IH. split.
    + intros [H1 H2]; auto.
    + intros [[<-|H1] H2]; [simpl in H2; rewrite E in H2; discriminate|auto].
Qed.

(** The enumeration lists every own property, and nothing else. *)
Lemma In_own_enumerable_entries (x : jsstring * json) (ps : properties_of) :
  In x (own_enumerable_entries ps) <-> In x ps.
Proof.
  unfold own_enumerable_entries.
  rewrite in_app_iff, In_index_entries, filter_In.
  destruct (is_array_index (fst x)); simpl; intuition discriminate.
Qed.

Lemma has_own_enumerable (k : jsstring) (ps : properties_of) :
  has_own k (own_enumerable_entries ps) = has_own k ps.
Proof.
  apply eq_true_iff_eq. rewrite !has_own_In, !in_map_iff.
  split; intros [x [Hx Hin]]; exists x; split; auto;
    now apply In_own_enumerable_entries.
Qed.

(** Without array indices among the keys the enumeration is the order of
    creation. *)
Lemma own_enumerable_entries_plain (ps : properties_of) :
  Forall (fun e => is_array_index (fst e) = false) ps ->
  own_enumerable_entries ps = ps.
Proof.
  intros H. unfold own_enumerable_entries.
  assert (Hi : index_entries ps = []).
  { induction H as [|[k v] ps Hk _ IH]; simpl; [reflexivity|].
    unfold is_array_index in Hk. simpl in Hk.
    destruct (array_index k); [discriminate|exact IH]. }
  rewrite Hi. clear Hi. simpl.
  induction H as [|[k v] ps Hk _ IH]; simpl; [reflexivity|].
  simpl in Hk. rewrite Hk. simpl. now rewrite IH.
Qed.

Lemma insert_by_index_perm (n : N) (e : jsstring * json)
  (l : list (N * (jsstring * json))) :
  Permutation (insert_by_index n e l) ((n, e) :: l).
Proof.
  induction l as [|[m e'] l IH]; simpl; [apply Permutation_refl|].
  destruct (n <=? m); [apply Permutation_refl|].
  eapply Permutation_trans; [apply perm_skip, IH|apply perm_swap].
Qed.

(** The enumeration is a rearrangement of the own properties. *)
Lemma own_enumerable_entries_perm (ps : properties_of) :
  Permutation (own_enumerable_entries ps) ps.
Proof.
  unfold own_enumerable_entries.
  induction ps as [|[k v] ps IH]; simpl; [apply Permutation_refl|].
  unfold is_array_index. simpl.
  destruct (array_index k) as [n|]; simpl.
  - eapply Permutation_trans;
      [apply Permutation_app_tail, Permutation_map, insert_by_index_perm|].
    simpl. now apply perm_skip.
  - eapply Permutation_trans; [apply Permutation_sym, Permutation_middle|].
    now apply perm_skip.
Qed.

Lemma get_own_In (k : jsstring) (v : json) (ps : properties_of) :
  NoDup (map fst ps) -> (get_own k ps = Some v <-> In (k, v) ps).
Proof.
  induction ps as [|[k' v'] ps IH]; simpl; intros Hnd; [intuition discriminate|].
  inversion Hnd as [|? ? Hnotin Hnd']; subst.
  destruct (jsstring_eqb_spec k k') as [->|Hne].
  - split.
    + intros [= ->]. now left.
    + intros [[= ->]|Hin]; [reflexivity|].
      exfalso. apply Hnotin. now apply (in_map fst) in Hin.
  - rewrite (IH Hnd'). split; [now right|].
    intros [[= -> _]|Hin]; [congruence|exact Hin].
Qed.

(** With keys that are pairwise distinct, a property is found in the
    enumeration as it is found among the own properties. *)
Lemma get_own_enumerable (k : jsstring) (ps : properties_of) :
  NoDup (map fst ps) ->
  get_own k (own_enumerable_entries ps) = get_own k ps.
Proof.
  intros Hnd.
  assert (Hnd' : NoDup (map fst (own_enumerable_entries ps))).
  { eapply Permutation_NoDup; [|exact Hnd].
    apply Permutation_map, Permutation_sym, own_enumerable_entries_perm. }
  destruct (get_own k ps) as [v|] eqn:E.
  - apply (proj2 (get_own_In _ _ _ Hnd')).
    apply (proj2 (In_own_enumerable_entries _ _)).
    now apply (proj1 (get_own_In _ _ _ Hnd)).
  - destruct (get_own k (own_enumerable_entries ps)) as [v|] eqn:E'; [|reflexivity].
    apply (proj1 (get_own_In _ _ _ Hnd')) in E'.
    apply (proj1 (In_own_enumerable_entries _ _)) in E'.
    apply (proj2 (get_own_In _ _ _ Hnd)) in E'. congruence.
Qed.

Lemma define_own_nodup (k : jsstring) (v : json) (ps : properties_of) :
  NoDup (map fst ps) -> NoDup (map fst (define_own k v ps)).
Proof.
  intros H. rewrite define_own_keys.
  destruct (has_own k ps) eqn:E; [now rewrite app_nil_r|].
  apply NoDup_app; [exact H|constructor; [simpl; tauto|constructor]|].
  intros x Hx [<-|[]]. apply has_own_In in Hx. congruence.
Qed.

Lemma assign_nodup (k : jsstring) (v : json) (o : jsobject) :
  NoDup (map fst (own o)) -> NoDup (map fst (own (assign k v o))).
Proof.
  intros H. unfold assign.
  destruct (has_own k (own o)); simpl; [now apply define_own_nodup|].
  destruct (jsstring_eqb k proto_key && inherits_proto_accessor (proto o)).
  - now rewrite own_set_prototype.
  - now apply define_own_nodup.
Qed.

(** *** Objects that differ in one entry *)

Lemma agree_except_refl (f : jsstring) (m : jsobject) : agree_except f m m.
Proof. now repeat split. Qed.

Lemma has_own_keys (k : jsstring) (ps qs : properties_of) :
  map fst ps = map fst qs -> has_own k ps = has_own k qs.
Proof.
  intros H. apply eq_true_iff_eq. now rewrite !has_own_In, H.
Qed.

Lemma get_own_define (g k : jsstring) (v : json) (ps : properties_of) :
  get_own g (define_own k v ps)
  = if jsstring_eqb g k then Some v else get_own g ps.
Proof.
  destruct (jsstring_eqb_spec g k) as [->|Hne].
  - apply get_own_define_same.
  - now apply get_own_define_other.
Qed.

(** The same assignment to both keeps them in agreement. *)
Lemma assign_agree (f k : jsstring) (v : json) (m1 m2 : jsobject) :
  agree_except f m1 m2 -> agree_except f (assign k v m1) (assign k v m2).
Proof.
  intros (Hp & Hk & Hg). unfold assign.
  rewrite (has_own_keys k _ _ Hk), Hp.
  destruct (has_own k (own m2)) eqn:E; simpl.
  - repeat split; simpl; auto.
    + now rewrite !define_own_keys, Hk, (has_own_keys k _ _ Hk).
    + intros g Hne. rewrite !get_own_define.
      destruct (jsstring_eqb g k); auto.
  - destruct (jsstring_eqb k proto_key && inherits_proto_accessor (proto m2)).
    + unfold set_prototype. destruct v; repeat split; simpl; auto.
    + repeat split; simpl; auto.
      * now rewrite !define_own_keys, Hk, (has_own_keys k _ _ Hk).
      * intros g Hne. rewrite !get_own_define.
        destruct (jsstring_eqb g k); auto.
Qed.

(** Two values assigned to the key [f] itself keep them in agreement. *)
Lemma assign_agree_at (f : jsstring) (v1 v2 : json) (m1 m2 : jsobject) :
  f <> proto_key ->
  agree_except f m1 m2 -> agree_except f (assign f v1 m1) (assign f v2 m2).
Proof.
  intros Hf (Hp & Hk & Hg). rewrite !assign_ordinary by exact Hf.
  repeat split; simpl; auto.
  - now rewrite !define_own_keys, Hk, (has_own_keys f _ _ Hk).
  - intros g Hne. rewrite !get_own_define_other by exact Hne. now apply Hg.
Qed.

(** ** The loop *)

Section Loop.

Variable disk : sink.
Variable fs : filesystem.
Variable model : service.
Variable compose : jsstring -> jsstring -> jsstring.
Variable announce_skips : bool.
Variable FILES : list jsstring.

Local Abbreviation step := (loop_body fs model compose announce_skips FILES).
Local Abbreviation run := (after_loop fs model compose announce_skips FILES).
Local Abbreviation ends := (outcomes fs model compose).
Local Abbreviation sent := (sent_for fs compose).
Local Abbreviation pause := (throttled FILES).

(** One turn of the loop never throws, and does to the accumulator, the
    requests and the delays what the end of its target says. *)
Lemma loop_body_spec (f : jsstring) (st : run_state) :
  snd (step f st) = Some tt
  /\ observable (fst (step f st))
     = (record f (outcome_of fs model compose (List.length (requests st)) f)
          (masterAnalysis st),
        requests st ++ sent f,
        delays st ++ pause (outcome_of fs model compose (List.length (requests st)) f)).
Proof.
  unfold loop_body, existsSync, outcome_of, sent_for, throttled, observable,
    try_catch, try_block, catch_block, readFileSync, generateContent,
    Response_Normalizer, bind, of_option, console_log, set_masterAnalysis,
    sleep, ret.
  destruct (fs f) as [| |code]; simpl.
  - destruct announce_skips; simpl; now rewrite !app_nil_r.
  - now rewrite !app_nil_r.
  - destruct (model (List.length (requests st)) (compose f code)) as [completion|];
      simpl; [|now rewrite !app_nil_r].
    destruct (JSON_parse (trim (strip_fences completion))) as [v|];
      simpl; [|now rewrite !app_nil_r].
    destruct (Nat.ltb 1 (List.length FILES)); simpl; [auto|now rewrite !app_nil_r].
Qed.

Lemma analyze_files_cons (f : jsstring) (files : list jsstring) (st : run_state) :
  analyze_files fs model compose announce_skips FILES (f :: files) st
  = analyze_files fs model compose announce_skips FILES files (fst (step f st)).
Proof.
  unfold analyze_files. cbn [for_of]. unfold bind.
  destruct (loop_body_spec f st) as [Hok _].
  destruct (step f st) as [st' r]. simpl in *. now subst r.
Qed.

Lemma after_loop_cons (f : jsstring) (files : list jsstring) (st : run_state) :
  run (f :: files) st = run files (fst (step f st)).
Proof. unfold after_loop. now rewrite analyze_files_cons. Qed.

(** The loop never throws: a failure of one target does not end the run. *)
Lemma analyze_files_completes (files : list jsstring) (st : run_state) :
  snd (analyze_files fs model compose announce_skips FILES files st) = Some tt.
Proof.
  revert st; induction files as [|f files IH]; intros st; [reflexivity|].
  now rewrite analyze_files_cons.
Qed.

Lemma after_loop_app (pre post : list jsstring) (st : run_state) :
  run (pre ++ post) st = run post (run pre st).
Proof.
  revert st; induction pre as [|f pre IH]; intros st; [reflexivity|].
  cbn [app]. now rewrite !after_loop_cons, IH.
Qed.

Lemma record_all_app (pre post : list jsstring) (os1 os2 : list outcome) (m : jsobject) :
  List.length pre = List.length os1 ->
  record_all (pre ++ post) (os1 ++ os2) m = record_all post os2 (record_all pre os1 m).
Proof.
  revert os1 m; induction pre as [|f pre IH]; intros [|o os1] m H;
    simpl in *; try discriminate; auto.
Qed.

Lemma outcomes_length (k : nat) (files : list jsstring) :
  List.length (ends k files) = List.length files.
Proof. revert k; induction files as [|f files IH]; intros k; simpl; auto. Qed.

Lemma outcomes_app (k : nat) (pre post : list jsstring) :
  ends k (pre ++ post)
  = ends k pre ++ ends (k + List.length (flat_map sent pre)) post.
Proof.
  revert k; induction pre as [|f pre IH]; intros k; simpl.
  - now rewrite Nat.add_0_r.
  - rewrite IH, length_app. now rewrite Nat.add_assoc.
Qed.

(** The whole loop, read off the ends of its targets. *)
Lemma after_loop_observable (files : list jsstring) (st : run_state) :
  observable (run files st)
  = (record_all files (ends (List.length (requests st)) files) (masterAnalysis st),
     requests st ++ flat_map sent files,
     delays st ++ flat_map pause (ends (List.length (requests st)) files)).
Proof.
  revert st; induction files as [|f files IH]; intros st.
  - unfold after_loop, observable. simpl. now rewrite !app_nil_r.
  - rewrite after_loop_cons, IH.
    destruct (loop_body_spec f st) as [_ Hst].
    unfold observable in Hst. injection Hst as Hm Hr Hd.
    rewrite Hm, Hr, Hd, length_app, <- !app_assoc. reflexivity.
Qed.

(** The lines printed have no part in what the loop does. *)
Lemma after_loop_console_blind (files : list jsstring) (st1 st2 : run_state) :
  observable st1 = observable st2 ->
  observable (run files st1) = observable (run files st2).
Proof.
  intros H. rewrite !after_loop_observable.
  unfold observable in H. injection H as -> -> ->. reflexivity.
Qed.

(** [analyzeAll] ends as its write does; before the write it has done what
    the loop does from the initial state. *)
Lemma analyzeAll_spec (printed : list console_line) :
  let p := analyzeAll disk fs model compose announce_skips FILES printed in
  let entries := BatchOutput (masterAnalysis (final p)) in
  exit_code p = (if disk OUTPUT_PATH entries then None else Some 1)
  /\ artifact p
     = (if disk OUTPUT_PATH entries then Some (OUTPUT_PATH, entries) else None)
  /\ observable (final p) = observable (run FILES initial_state).
Proof.
  unfold analyzeAll, bind.
  match goal with
  | |- context [console_log ?l ?st0] =>
      destruct (console_log l st0) as [st1 r1] eqn:E1
  end.
  unfold console_log in E1. injection E1 as <- <-.
  match goal with
  | |- context [analyze_files ?a ?b ?c ?d ?e ?f ?g] =>
      pose proof (analyze_files_completes f g) as Hok;
      pose proof (after_loop_console_blind f g initial_state eq_refl) as Hobs;
      unfold after_loop in Hobs;
      destruct (analyze_files a b c d e f g) as [st2 r2]
  end.
  simpl in Hok, Hobs. subst r2. unfold writeFileSync.
  destruct (disk OUTPUT_PATH (BatchOutput (masterAnalysis st2))) eqn:Ed;
    simpl; rewrite Ed; repeat split; exact Hobs.
Qed.

(** The order of the calls of one turn of the loop, and of the whole loop. *)
Lemma loop_body_trace (f : jsstring) (st : run_state) :
  trace (fst (step f st))
  = trace st
    ++ events_for fs compose FILES f
         (outcome_of fs model compose (List.length (requests st)) f).
Proof.
  unfold loop_body, existsSync, outcome_of, events_for, sent_for, throttled,
    try_catch, try_block, catch_block, readFileSync, generateContent,
    Response_Normalizer, bind, of_option, console_log, set_masterAnalysis,
    sleep, ret.
  destruct (fs f) as [| |code]; simpl.
  - destruct announce_skips; simpl; now rewrite !app_nil_r.
  - reflexivity.
  - destruct (model (List.length (requests st)) (compose f code)) as [completion|];
      simpl; [|now rewrite <- !app_assoc].
    destruct (JSON_parse (trim (strip_fences completion))) as [v|];
      simpl; [|now rewrite <- !app_assoc].
    destruct (Nat.ltb 1 (List.length FILES)); simpl; now rewrite <- !app_assoc.
Qed.

Lemma after_loop_trace (files : list jsstring) (st : run_state) :
  trace (run files st)
  = trace st ++ timeline fs model compose FILES (List.length (requests st)) files.
Proof.
  revert st; induction files as [|f files IH]; intros st.
  - unfold after_loop. simpl. now rewrite app_nil_r.
  - rewrite after_loop_cons, IH, loop_body_trace.
    destruct (loop_body_spec f st) as [_ Hst].
    unfold observable in Hst. injection Hst as _ Hr _.
    rewrite Hr, length_app, <- !app_assoc. reflexivity.
Qed.

Lemma analyzeAll_trace (printed : list console_line) :
  trace (final (analyzeAll disk fs model compose announce_skips FILES printed))
  = timeline fs model compose FILES 0 FILES.
Proof.
  unfold analyzeAll, bind.
  match goal with
  | |- context [console_log ?l ?st0] =>
      destruct (console_log l st0) as [st1 r1] eqn:E1
  end.
  unfold console_log in E1. injection E1 as <- <-.
  match goal with
  | |- context [analyze_files ?a ?b ?c ?d ?e ?f ?g] =>
      pose proof (analyze_files_completes f g) as Hok;
      pose proof (after_loop_trace f g) as Ht;
      unfold after_loop in Ht;
      destruct (analyze_files a b c d e f g) as [st2 r2]
  end.
  simpl in Hok, Ht. subst r2. unfold writeFileSync.
  destruct (disk OUTPUT_PATH (BatchOutput (masterAnalysis st2))); simpl; exact Ht.
Qed.

(** The accumulator, the requests and the delays at the end of [analyzeAll],
    read off the ends of the targets. *)
Lemma analyzeAll_observable (printed : list console_line) :
  observable (final (analyzeAll disk fs model compose announce_skips FILES printed))
  = (record_all FILES (ends 0 FILES) empty_object,
     flat_map sent FILES,
     flat_map pause (ends 0 FILES)).
Proof.
  destruct (analyzeAll_spec printed) as (_ & _ & H).
  rewrite H. apply after_loop_observable.
Qed.

Lemma all_succeed_length (k : nat) (files : list jsstring) (vs : list json) :
  all_succeed fs model compose k files vs -> List.length vs = List.length files.
Proof.
  revert k vs; induction files as [|f files IH]; intros k [|v vs] H;
    simpl in *; try tauto.
  destruct H as [_ H]. now rewrite (IH _ _ H).
Qed.

Lemma outcomes_all_succeed (k : nat) (files : list jsstring) (vs : list json) :
  all_succeed fs model compose k files vs -> ends k files = map Succeeded vs.
Proof.
  revert k vs; induction files as [|f files IH]; intros k [|v vs] H;
    simpl in *; try tauto.
  destruct H as [(code & completion & Hf & Hm & Hn) H].
  unfold outcome_of, sent_for. rewrite Hf, Hm, Hn. simpl.
  rewrite Nat.add_1_r. now rewrite (IH _ _ H).
Qed.

Lemma has_own_app (k : jsstring) (ps qs : properties_of) :
  has_own k (ps ++ qs) = has_own k ps || has_own k qs.
Proof.
  induction ps as [|[k' v'] ps IH]; simpl; [reflexivity|].
  now rewrite IH, orb_assoc.
Qed.

(** Distinct keys, none of them [__proto__], written to an object that has
    none of them: the entries are added in the order of the list. *)
Lemma record_all_fresh (files : list jsstring) (vs : list json) (m : jsobject) :
  NoDup files ->
  Forall (fun f => f <> proto_key) files ->
  (forall f, In f files -> has_own f (own m) = false) ->
  List.length vs = List.length files ->
  own (record_all files (map Succeeded vs) m) = own m ++ combine files vs.
Proof.
  revert vs m; induction files as [|f files IH]; intros [|v vs] m Hnd Hp Hfresh Hlen;
    simpl in *; try discriminate; try now rewrite app_nil_r.
  inversion Hnd as [|? ? Hnotin Hnd']; subst.
  inversion Hp as [|? ? Hf Hp']; subst.
  rewrite IH; auto.
  - rewrite assign_ordinary by exact Hf. simpl.
    rewrite define_own_fresh by (apply Hfresh; now left).
    now rewrite <- app_assoc.
  - intros g Hg. rewrite assign_ordinary by exact Hf. simpl.
    rewrite define_own_fresh by (apply Hfresh; now left).
    rewrite has_own_app, (Hfresh g) by now right. simpl.
    rewrite jsstring_eqb_neq; [reflexivity|]. intros ->. now apply Hnotin.
Qed.

Lemma throttled_count (os : list outcome) :
  flat_map pause os
  = repeat 4000
      (if Nat.ltb 1 (List.length FILES)
       then List.length (filter succeeded os) else 0%nat).
Proof.
  unfold throttled.
  induction os as [|o os IH]; simpl; [now destruct (Nat.ltb 1 _)|].
  rewrite IH. destruct (succeeded o), (Nat.ltb 1 (List.length FILES)); reflexivity.
Qed.

(** A missing target ends as [SkippedMissing], whatever was sent before. *)
Lemma outcome_of_missing (k : nat) (f : jsstring) :
  fs f = Missing ->
  outcome_of fs model compose k f = SkippedMissing /\ sent f = [].
Proof. intros H. unfold outcome_of, sent_for. now rewrite H. Qed.

Lemma record_other (g f : jsstring) (o : outcome) (m : jsobject) :
  g <> f -> get_own g (own (record f o m)) = get_own g (own m).
Proof. intros H. destruct o; simpl; auto using get_own_assign_other. Qed.

Lemma record_all_other (g : jsstring) (files : list jsstring) (os : list outcome)
  (m : jsobject) :
  ~ In g files -> get_own g (own (record_all files os m)) = get_own g (own m).
Proof using.
  revert os m; induction files as [|f files IH]; intros [|o os] m H;
    simpl in *; auto.
  rewrite IH by (intros Hin; apply H; now right).
  apply record_other. intros ->. apply H. now left.
Qed.

Lemma record_all_missing (g : jsstring) (k : nat) (files : list jsstring) (m : jsobject) :
  fs g = Missing ->
  get_own g (own (record_all files (ends k files) m)) = get_own g (own m).
Proof.
  intros Hg. revert k m; induction files as [|f files IH]; intros k m;
    simpl; [reflexivity|].
  rewrite IH.
  destruct (jsstring_eqb_spec g f) as [<-|Hne].
  - now destruct (outcome_of_missing k g Hg) as [-> _].
  - now apply record_other.
Qed.

Lemma record_keys (f : jsstring) (o : outcome) (m : jsobject) :
  exists ext, map fst (own (record f o m)) = map fst (own m) ++ ext.
Proof.
  destruct o; simpl.
  - exists []. now rewrite app_nil_r.
  - destruct (assign_keys f result m) as (ext & H & _). now exists ext.
  - destruct (assign_keys f fallback m) as (ext & H & _). now exists ext.
Qed.

Lemma record_all_keys (files : list jsstring) (os : list outcome) (m : jsobject) :
  exists ext, map fst (own (record_all files os m)) = map fst (own m) ++ ext.
Proof.
  revert os m; induction files as [|f files IH]; intros [|o os] m; simpl;
    try (exists []; now rewrite app_nil_r).
  destruct (IH os (record f o m)) as [ext1 H1].
  destruct (record_keys f o m) as [ext2 H2].
  exists (ext2 ++ ext1). now rewrite H1, H2, app_assoc.
Qed.

(** Distinct targets, none of them [__proto__]: the keys are created in the
    order of the targets that exist. *)
Lemma record_all_distinct_keys (k : nat) (files : list jsstring) (m : jsobject) :
  NoDup files ->
  Forall (fun f => f <> proto_key) files ->
  (forall f, In f files -> has_own f (own m) = false) ->
  map fst (own (record_all files (ends k files) m))
  = map fst (own m) ++ filter (existsSync fs) files.
Proof.
  revert k m; induction files as [|f files IH]; intros k m Hnd Hp Hfresh;
    simpl; [now rewrite app_nil_r|].
  inversion Hnd as [|? ? Hnotin Hnd']; subst.
  inversion Hp as [|? ? Hf Hp']; subst.
  assert (Hstep : map fst (own (record f (outcome_of fs model compose k f) m))
                  = map fst (own m) ++ (if existsSync fs f then [f] else [])).
  { unfold outcome_of, existsSync.
    destruct (fs f) as [| |code]; simpl; [now rewrite app_nil_r| |];
      repeat match goal with
             | |- context [match ?x with Some _ => _ | None => _ end] => destruct x
             end; simpl;
      rewrite assign_ordinary by exact Hf; simpl;
      now rewrite define_own_keys, Hfresh by now left. }
  rewrite IH; auto.
  - rewrite Hstep, <- app_assoc. now destruct (existsSync fs f).
  - intros g Hg. apply not_true_is_false. rewrite has_own_In, Hstep, in_app_iff.
    intros [H|H].
    + apply has_own_In in H. rewrite Hfresh in H by now right. discriminate.
    + destruct (existsSync fs f); simpl in H; [|tauto].
      destruct H as [->|[]]. tauto.
Qed.

End Loop.

(** ** One failure among the targets *)

Section Isolation.

Variable disk : sink.
Variable fs : filesystem.
Variable compose : jsstring -> jsstring -> jsstring.
Variable announce_skips : bool.

Local Abbreviation sent := (sent_for fs compose).

Lemma outcome_of_ext (model1 model2 : service) (k : nat) (f : jsstring) :
  (forall p, sent f <> [] -> model1 k p = model2 k p) ->
  outcome_of fs model1 compose k f = outcome_of fs model2 compose k f.
Proof.
  unfold outcome_of, sent_for. intros H.
  destruct (fs f) as [| |code]; try reflexivity.
  now rewrite H by discriminate.
Qed.

(** The ends of a run of targets depend on the answers to its own requests
    only. *)
Lemma outcomes_ext (model1 model2 : service) (k : nat) (files : list jsstring) :
  (forall i p, (k <= i < k + List.length (flat_map sent files))%nat ->
               model1 i p = model2 i p) ->
  outcomes fs model1 compose k files = outcomes fs model2 compose k files.
Proof.
  revert k; induction files as [|f files IH]; intros k H; simpl; [reflexivity|].
  simpl in H. rewrite length_app in H. f_equal.
  - apply outcome_of_ext. intros p Hs. apply H.
    destruct (sent f); [congruence|simpl; lia].
  - apply IH. intros i p Hi. apply H. lia.
Qed.

Lemma record_all_agree (f : jsstring) (files : list jsstring) (os : list outcome)
  (m1 m2 : jsobject) :
  agree_except f m1 m2 ->
  agree_except f (record_all files os m1) (record_all files os m2).
Proof.
  revert os m1 m2; induction files as [|g files IH]; intros [|o os] m1 m2 H;
    simpl; auto.
  apply IH. destruct o; simpl; auto using assign_agree.
Qed.

Lemma record_all_nodup (files : list jsstring) (os : list outcome) (m : jsobject) :
  NoDup (map fst (own m)) -> NoDup (map fst (own (record_all files os m))).
Proof.
  revert os m; induction files as [|g files IH]; intros [|o os] m H; simpl; auto.
  apply IH. destruct o; simpl; auto using assign_nodup.
Qed.

(** The accumulator at the end of [analyzeAll] on a list that holds the
    target [f], with the end of [f] set apart: [k] requests are sent for the
    targets before it. *)
Lemma masterAnalysis_around (model : service) (pre post : list jsstring)
  (f : jsstring) (printed : list console_line) :
  let k := List.length (flat_map sent pre) in
  masterAnalysis
    (final (analyzeAll disk fs model compose announce_skips (pre ++ f :: post) printed))
  = record_all post
      (outcomes fs model compose (k + List.length (sent f)) post)
      (record f (outcome_of fs model compose k f)
         (record_all pre (outcomes fs model compose 0 pre) empty_object)).
Proof.
  intros k.
  pose proof (analyzeAll_observable disk fs model compose announce_skips
                (pre ++ f :: post) printed) as H.
  unfold observable in H. injection H as Hm _ _.
  rewrite Hm, outcomes_app, record_all_app by now rewrite outcomes_length.
  reflexivity.
Qed.

End Isolation.

(** ** The script as a whole *)

Lemma main_v1_analyzeAll (disk : sink) (fs : filesystem) (model : service) (FILES : list jsstring) :
  FILES <> [] ->
  main_v1 disk fs model FILES = analyzeAll disk fs model prompt_v1 true FILES [].
Proof. destruct FILES; [congruence|reflexivity]. Qed.

Lemma main_v2_analyzeAll (Number_toString : jsstring -> jsstring)
  (Number_truthy : jsstring -> bool) (disk : sink) (fs : filesystem) (model : service)
  (FILES : list jsstring) :
  FILES <> [] ->
  main_v2 disk Number_toString Number_truthy fs model FILES
  = analyzeAll disk fs model
      (prompt_v2 (projectContext (gather_context Number_toString Number_truthy fs)))
      false FILES (warnings (gather_context Number_toString Number_truthy fs)).
Proof. destruct FILES; [congruence|reflexivity]. Qed.

(** * The properties of the specification *)

(** C1 (as amended).  When every identifier resolves to readable content and
    every request is answered by a well-formed completion, and the identifiers
    are pairwise distinct, none of them an array index or [__proto__], the
    entries that [analyzeAll] hands to the write are exactly one per
    identifier, keyed by it, in input order, each with the parsed completion
    of that identifier as its value; they are the file written, when the write
    does not throw. *)
Theorem analyzeAll_all_succeed
  (disk : sink) (fs : filesystem) (model : service) (compose : jsstring -> jsstring -> jsstring)
  (announce_skips : bool) (FILES : list jsstring) (vs : list json)
  (printed : list console_line) :
  all_succeed fs model compose 0 FILES vs ->
  NoDup FILES ->
  Forall (fun f => is_array_index f = false /\ f <> proto_key) FILES ->
  let p := analyzeAll disk fs model compose announce_skips FILES printed in
  BatchOutput (masterAnalysis (final p)) = combine FILES vs
  /\ artifact p
     = (if disk OUTPUT_PATH (combine FILES vs)
        then Some (OUTPUT_PATH, combine FILES vs)
        else None).
Proof.
  intros Hall Hnd Hkeys p.
  assert (Hout : BatchOutput (masterAnalysis (final p)) = combine FILES vs).
  { pose proof (analyzeAll_observable disk fs model compose announce_skips FILES printed)
      as Hobs.
    fold p in Hobs. unfold observable in Hobs. injection Hobs as Hma _ _.
    rewrite Hma, (outcomes_all_succeed _ _ _ _ _ _ Hall).
    unfold BatchOutput.
    rewrite record_all_fresh; simpl; auto.
    - apply own_enumerable_entries_plain.
      apply Forall_forall. intros [k v] Hin. simpl.
      apply in_combine_l in Hin.
      rewrite Forall_forall in Hkeys. now apply Hkeys.
    - eapply Forall_impl; [|exact Hkeys]. simpl. tauto.
    - now apply all_succeed_length in Hall. }
  split; [exact Hout|].
  destruct (analyzeAll_spec disk fs model compose announce_skips FILES printed)
    as (_ & Ha & _).
  fold p in Ha. cbv zeta in Ha. now rewrite Ha, Hout.
Qed.

(** C2 (as amended).  When the request sent for a target fails, or its
    completion does not parse, and the identifier of the target is not
    [__proto__] and does not come again later in the list, the entry written
    for it is the fallback [{ props: {}, wrappers: {} }]; the run goes on to
    the write, and ends as the write does (with its file, or with status 1
    when the write throws); and the entry of every other identifier is what it
    would be had the service answered this one request in any other way. *)
Theorem failure_recorded_as_fallback
  (disk : sink) (fs : filesystem) (model : service) (compose : jsstring -> jsstring -> jsstring)
  (announce_skips : bool) (pre post : list jsstring) (f code : jsstring)
  (printed : list console_line) :
  let FILES := pre ++ f :: post in
  let k := List.length (flat_map (sent_for fs compose) pre) in
  let output := fun m : service =>
    BatchOutput
      (masterAnalysis (final (analyzeAll disk fs m compose announce_skips FILES printed))) in
  fs f = Readable code ->
  (model k (compose f code) = None
   \/ exists completion,
        model k (compose f code) = Some completion
        /\ Response_Normalizer completion = None) ->
  f <> proto_key ->
  ~ In f post ->
  get_own f (output model) = Some fallback
  /\ exit_code (analyzeAll disk fs model compose announce_skips FILES printed)
     = (if disk OUTPUT_PATH (output model) then None else Some 1)
  /\ artifact (analyzeAll disk fs model compose announce_skips FILES printed)
     = (if disk OUTPUT_PATH (output model)
        then Some (OUTPUT_PATH, output model)
        else None)
  /\ (forall model',
         (forall i p, i <> k -> model' i p = model i p) ->
         forall g, g <> f -> get_own g (output model') = get_own g (output model)).
Proof.
  intros FILES k output Hf Hfail Hproto Hpost.
  pose proof (masterAnalysis_around disk fs compose announce_skips model pre post f printed)
    as Hm.
  fold FILES k in Hm.
  assert (Hend : outcome_of fs model compose k f = FailedFallback).
  { unfold outcome_of. rewrite Hf.
    destruct Hfail as [->|(completion & -> & ->)]; reflexivity. }
  assert (Hnd : forall files os, NoDup (map fst (own (record_all files os empty_object))))
    by (intros; apply record_all_nodup; constructor).
  destruct (analyzeAll_spec disk fs model compose announce_skips FILES printed)
    as (Hexit & Hart & _).
  split; [|split; [exact Hexit|split; [exact Hart|]]].
  - unfold output, BatchOutput. rewrite Hm, Hend.
    rewrite get_own_enumerable
      by (apply record_all_nodup; simpl; apply assign_nodup, Hnd).
    rewrite record_all_other by exact Hpost. simpl.
    rewrite assign_ordinary by exact Hproto. simpl.
    apply get_own_define_same.
  - intros model' Hsame g Hg.
    pose proof (masterAnalysis_around disk fs compose announce_skips model' pre post f printed)
      as Hm'.
    fold FILES k in Hm'.
    assert (Hpre : outcomes fs model' compose 0 pre = outcomes fs model compose 0 pre).
    { apply outcomes_ext. intros i p Hi. apply Hsame. unfold k. lia. }
    assert (Hafter : outcomes fs model' compose (k + List.length (sent_for fs compose f)) post
                     = outcomes fs model compose (k + List.length (sent_for fs compose f)) post).
    { apply outcomes_ext. intros i p Hi. apply Hsame.
      unfold sent_for in Hi. rewrite Hf in Hi. simpl in Hi. lia. }
    unfold output, BatchOutput. rewrite Hm, Hm', Hpre, Hafter, Hend.
    rewrite !get_own_enumerable.
    + assert (Hagree :
        agree_except f
          (record f (outcome_of fs model' compose k f)
             (record_all pre (outcomes fs model compose 0 pre) empty_object))
          (record f FailedFallback
             (record_all pre (outcomes fs model compose 0 pre) empty_object))).
      { destruct (outcome_of fs model' compose k f) eqn:E.
        - unfold outcome_of in E. rewrite Hf in E.
          destruct (model' k (compose f code)) as [c|]; [|discriminate].
          destruct (Response_Normalizer c); discriminate.
        - simpl. apply assign_agree_at; [exact Hproto|apply agree_except_refl].
        - apply agree_except_refl. }
      apply (record_all_agree f post
               (outcomes fs model compose (k + List.length (sent_for fs compose f)) post))
        in Hagree.
      destruct Hagree as (_ & _ & Hget). now apply Hget.
    + apply record_all_nodup. simpl. apply assign_nodup, Hnd.
    + apply record_all_nodup.
      destruct (outcome_of fs model' compose k f); simpl;
        try apply assign_nodup; apply Hnd.
Qed.



(** C5.  A target that does not exist adds no entry, sends no request and
    consumes no delay; the targets after it are processed from the state the
    loop was in before it; the written entries hold no entry for it; and the
    accumulator and the requests at the end are those of the run on the list
    without it. *)
Theorem missing_target_skipped
  (disk : sink) (fs : filesystem) (model : service) (compose : jsstring -> jsstring -> jsstring)
  (announce_skips : bool) (pre post : list jsstring) (f : jsstring)
  (st : run_state) (printed : list console_line) :
  let FILES := pre ++ f :: post in
  let p := analyzeAll disk fs model compose announce_skips FILES printed in
  let p' := analyzeAll disk fs model compose announce_skips (pre ++ post) printed in
  fs f = Missing ->
  observable (fst (loop_body fs model compose announce_skips FILES f st))
  = observable st
  /\ observable (after_loop fs model compose announce_skips FILES (f :: post) st)
     = observable (after_loop fs model compose announce_skips FILES post st)
  /\ get_own f (BatchOutput (masterAnalysis (final p))) = None
  /\ masterAnalysis (final p) = masterAnalysis (final p')
  /\ requests (final p) = requests (final p').
Proof.
  intros FILES p p' Hf.
  assert (Hstep : observable (fst (loop_body fs model compose announce_skips FILES f st))
                  = observable st).
  { destruct (loop_body_spec fs model compose announce_skips FILES f st) as [_ H].
    rewrite H.
    destruct (outcome_of_missing fs model compose (List.length (requests st)) f Hf)
      as [-> ->].
    unfold observable, throttled. simpl. now rewrite !app_nil_r. }
  pose proof (analyzeAll_observable disk fs model compose announce_skips FILES printed)
    as Hobs.
  pose proof (analyzeAll_observable disk fs model compose announce_skips (pre ++ post) printed)
    as Hobs'.
  fold p in Hobs. fold p' in Hobs'.
  unfold observable in Hobs, Hobs'.
  injection Hobs as Hm Hr _. injection Hobs' as Hm' Hr' _.
  split; [exact Hstep|].
  split; [rewrite after_loop_cons; now apply after_loop_console_blind|].
  split; [|split].
  - unfold BatchOutput. rewrite Hm.
    pose proof (has_own_enumerable f
      (own (record_all FILES (outcomes fs model compose 0 FILES) empty_object)))
      as Hen.
    rewrite !has_own_get_own in Hen.
    rewrite (record_all_missing fs model compose f) in Hen by exact Hf.
    simpl in Hen.
    now destruct (get_own f (own_enumerable_entries _)).
  - rewrite Hm, Hm'. unfold FILES.
    rewrite !outcomes_app, !record_all_app by now rewrite outcomes_length.
    cbn [outcomes record_all Nat.add].
    destruct (outcome_of_missing fs model compose
                (List.length (flat_map (sent_for fs compose) pre)) f Hf)
      as [-> ->].
    cbn [record List.length]. now rewrite Nat.add_0_r.
  - rewrite Hr, Hr'. unfold FILES. rewrite !flat_map_app. simpl.
    now destruct (outcome_of_missing fs model compose 0 f Hf) as [_ ->].
Qed.


(** C7.  With no file named, each revision prints the diagnostic and leaves
    with code 1: nothing was sent, nothing slept, nothing written. *)
Theorem no_files_exit_1
  (Number_toString : jsstring -> jsstring) (Number_truthy : jsstring -> bool)
  (disk : sink) (fs : filesystem) (model : service) :
  let stopped :=
    {| exit_code := Some 1;
       final := {| masterAnalysis := empty_object; requests := []; delays := [];
                   console := [NoFilesProvided]; trace := [] |};
       artifact := None |} in
  main_v1 disk fs model [] = stopped
  /\ main_v2 disk Number_toString Number_truthy fs model [] = stopped.
Proof. split; reflexivity. Qed.


(** C9.  A completion without fence markers goes through the stripping step
    unchanged, so that it is parsed as it stands (trimmed). *)
Theorem strip_fences_fence_free (completion : jsstring) :
  includes fence completion = false ->
  includes fence_json completion = false
  /\ strip_fences completion = completion
  /\ Response_Normalizer completion = JSON_parse (trim completion).
Proof.
  intros H. split; [now apply includes_app_l|].
  assert (Hs : strip_fences completion = completion) by now apply strip_fences_absent.
  split; [exact Hs|]. unfold Response_Normalizer. now rewrite Hs.
Qed.


(** * Further properties of the code *)

(** ** The loop: requests, entries, console *)

Section LoopFacts.

Variable fs : filesystem.
Variable model : service.
Variable compose : jsstring -> jsstring -> jsstring.
Variable announce_skips : bool.
Variable FILES : list jsstring.

Local Abbreviation step := (loop_body fs model compose announce_skips FILES).
Local Abbreviation run := (after_loop fs model compose announce_skips FILES).
Local Abbreviation ends := (outcomes fs model compose).
Local Abbreviation sent := (sent_for fs compose).

Lemma sent_for_length (f : jsstring) :
  List.length (sent f) = if is_readable fs f then 1%nat else 0%nat.
Proof. unfold sent_for, is_readable. now destruct (fs f). Qed.

Lemma flat_map_sent_length (files : list jsstring) :
  List.length (flat_map sent files) = List.length (filter (is_readable fs) files).
Proof.
  induction files as [|f files IH]; simpl; [reflexivity|].
  rewrite length_app, sent_for_length, IH.
  now destruct (is_readable fs f).
Qed.

(** A target is skipped exactly when it does not exist. *)
Lemma outcome_of_skipped (k : nat) (f : jsstring) :
  outcome_of fs model compose k f = SkippedMissing <-> existsSync fs f = false.
Proof.
  unfold outcome_of, existsSync.
  destruct (fs f) as [| |code]; try (split; [discriminate|discriminate]);
    try (split; reflexivity).
  destruct (model k (compose f code)) as [c|]; [|split; discriminate].
  destruct (Response_Normalizer c); split; discriminate.
Qed.

(** A delay is slept for a target only when a request was sent for it. *)
Lemma throttled_within_sent (k : nat) (f : jsstring) :
  (List.length (throttled FILES (outcome_of fs model compose k f))
   <= List.length (sent f))%nat.
Proof.
  unfold throttled, outcome_of, sent_for.
  destruct (fs f) as [| |code]; simpl; try lia.
  destruct (model k (compose f code)) as [c|]; simpl; [|lia].
  destruct (Response_Normalizer c); simpl; [|lia].
  destruct (Nat.ltb 1 (List.length FILES)); simpl; lia.
Qed.

Lemma throttled_all_within_sent (k : nat) (files : list jsstring) :
  (List.length (flat_map (throttled FILES) (ends k files))
   <= List.length (flat_map sent files))%nat.
Proof.
  revert k; induction files as [|f files IH]; intros k; simpl; [lia|].
  rewrite !length_app.
  pose proof (throttled_within_sent k f).
  specialize (IH (k + List.length (sent f))%nat). lia.
Qed.

Lemma has_own_define (g k : jsstring) (v : json) (ps : properties_of) :
  has_own g (define_own k v ps) = jsstring_eqb g k || has_own g ps.
Proof.
  rewrite !has_own_get_own, get_own_define.
  destruct (jsstring_eqb g k); reflexivity.
Qed.

Lemma has_own_record_other (g f : jsstring) (o : outcome) (m : jsobject) :
  g <> f -> has_own g (own (record f o m)) = has_own g (own m).
Proof. intros H. now rewrite !has_own_get_own, record_other. Qed.

(** The keys that a run of targets leaves in the accumulator, [__proto__]
    apart: those it had, and the targets that exist. *)
Lemma has_own_record_all (g : jsstring) (k : nat) (files : list jsstring)
  (m : jsobject) :
  g <> proto_key ->
  has_own g (own (record_all files (ends k files) m))
  = has_own g (own m) || (existsb (jsstring_eqb g) files && existsSync fs g).
Proof.
  intros Hg. revert k m; induction files as [|f files IH]; intros k m; simpl.
  - now rewrite orb_false_r.
  - rewrite IH.
    destruct (jsstring_eqb_spec g f) as [<-|Hne]; simpl.
    + destruct (existsSync fs g) eqn:E.
      * destruct (outcome_of fs model compose k g) eqn:Eo.
        -- apply (proj1 (outcome_of_skipped k g)) in Eo. congruence.
        -- simpl. rewrite assign_ordinary by exact Hg. simpl.
           rewrite has_own_define, jsstring_eqb_refl. simpl.
           now rewrite !orb_true_r.
        -- simpl. rewrite assign_ordinary by exact Hg. simpl.
           rewrite has_own_define, jsstring_eqb_refl. simpl.
           now rewrite !orb_true_r.
      * rewrite (proj2 (outcome_of_skipped k g) E). simpl.
        now rewrite !andb_false_r.
    + now rewrite has_own_record_other.
Qed.

(** Every key of the accumulator was there before or is a target that
    exists. *)
Lemma keys_record_all (g : jsstring) (k : nat) (files : list jsstring) (m : jsobject) :
  In g (map fst (own (record_all files (ends k files) m))) ->
  In g (map fst (own m)) \/ (In g files /\ existsSync fs g = true).
Proof.
  revert k m; induction files as [|f files IH]; intros k m H; simpl in *; [now left|].
  apply IH in H. destruct H as [H|[H1 H2]]; [|right; split; [now right|exact H2]].
  destruct (outcome_of fs model compose k f) eqn:Eo; simpl in H.
  - now left.
  - destruct (assign_keys f result m) as (ext & Hk & Hext).
    rewrite Hk, in_app_iff in H. destruct H as [H|H]; [now left|].
    destruct Hext as [->| ->]; [destruct H|].
    destruct H as [<-|[]]. right. split; [now left|].
    destruct (existsSync fs f) eqn:E; [reflexivity|].
    apply (proj2 (outcome_of_skipped k f)) in E. congruence.
  - destruct (assign_keys f fallback m) as (ext & Hk & Hext).
    rewrite Hk, in_app_iff in H. destruct H as [H|H]; [now left|].
    destruct Hext as [->| ->]; [destruct H|].
    destruct H as [<-|[]]. right. split; [now left|].
    destruct (existsSync fs f) eqn:E; [reflexivity|].
    apply (proj2 (outcome_of_skipped k f)) in E. congruence.
Qed.

(** The lines one turn of the loop prints. *)
Lemma loop_body_console (f : jsstring) (st : run_state) :
  console (fst (step f st))
  = console st
    ++ lines_for announce_skips FILES f
         (outcome_of fs model compose (List.length (requests st)) f).
Proof.
  unfold loop_body, existsSync, outcome_of, lines_for,
    try_catch, try_block, catch_block, readFileSync, generateContent,
    Response_Normalizer, bind, of_option, console_log, set_masterAnalysis,
    sleep, ret.
  destruct (fs f) as [| |code]; simpl.
  - destruct announce_skips; simpl; now rewrite ?app_nil_r.
  - now rewrite <- app_assoc.
  - destruct (model (List.length (requests st)) (compose f code)) as [completion|];
      simpl; [|now rewrite <- app_assoc].
    destruct (JSON_parse (trim (strip_fences completion))) as [v|];
      simpl; [|now rewrite <- app_assoc].
    destruct (Nat.ltb 1 (List.length FILES)); simpl; [now rewrite <- app_assoc|reflexivity].
Qed.

Lemma after_loop_console (files : list jsstring) (st : run_state) :
  console (run files st)
  = console st
    ++ report fs model compose announce_skips FILES (List.length (requests st)) files.
Proof.
  revert st; induction files as [|f files IH]; intros st.
  - unfold after_loop. simpl. now rewrite app_nil_r.
  - rewrite after_loop_cons, IH, loop_body_console.
    destruct (loop_body_spec fs model compose announce_skips FILES f st) as [_ Hst].
    unfold observable in Hst. injection Hst as _ Hr _.
    rewrite Hr, length_app, <- app_assoc. reflexivity.
Qed.

End LoopFacts.

(** X1.  The prompts sent are those of the targets that can be read, one
    each, in input order; which prompts are sent does not depend on what the
    service answers. *)
Theorem requests_in_input_order
  (disk : sink) (fs : filesystem) (model : service) (compose : jsstring -> jsstring -> jsstring)
  (announce_skips : bool) (FILES : list jsstring) (printed : list console_line) :
  let sent_prompts := fun m : service =>
    requests (final (analyzeAll disk fs m compose announce_skips FILES printed)) in
  sent_prompts model
  = flat_map (fun f => match fs f with
                       | Readable code => [compose f code]
                       | _ => []
                       end) FILES
  /\ List.length (sent_prompts model) = List.length (filter (is_readable fs) FILES)
  /\ (forall model', sent_prompts model' = sent_prompts model).
Proof.
  intros sent_prompts.
  assert (H : forall m, sent_prompts m = flat_map (sent_for fs compose) FILES).
  { intros m. unfold sent_prompts.
    pose proof (analyzeAll_observable disk fs m compose announce_skips FILES printed) as Hobs.
    unfold observable in Hobs. now injection Hobs as _ Hr _. }
  split; [apply H|].
  split; [rewrite H; apply flat_map_sent_length|].
  intros model'. now rewrite !H.
Qed.

(** X2.  A target that exists and cannot be read is given the fallback entry
    without any request being sent and without any delay. *)
Theorem unreadable_target_fallback
  (disk : sink) (fs : filesystem) (model : service) (compose : jsstring -> jsstring -> jsstring)
  (announce_skips : bool) (pre post : list jsstring) (f : jsstring)
  (st : run_state) (printed : list console_line) :
  let FILES := pre ++ f :: post in
  let p := analyzeAll disk fs model compose announce_skips FILES printed in
  let p' := analyzeAll disk fs model compose announce_skips (pre ++ post) printed in
  fs f = Unreadable ->
  f <> proto_key ->
  ~ In f post ->
  observable (fst (loop_body fs model compose announce_skips FILES f st))
  = (assign f fallback (masterAnalysis st), requests st, delays st)
  /\ get_own f (BatchOutput (masterAnalysis (final p))) = Some fallback
  /\ requests (final p) = requests (final p').
Proof.
  intros FILES p p' Hf Hproto Hpost.
  assert (Hend : forall k, outcome_of fs model compose k f = FailedFallback)
    by (intros k; unfold outcome_of; now rewrite Hf).
  assert (Hsent : sent_for fs compose f = [])
    by (unfold sent_for; now rewrite Hf).
  split; [|split].
  - destruct (loop_body_spec fs model compose announce_skips FILES f st) as [_ H].
    rewrite H, Hend, Hsent. unfold throttled. simpl. now rewrite !app_nil_r.
  - pose proof (masterAnalysis_around disk fs compose announce_skips model pre post f printed)
      as Hm.
    cbv zeta in Hm. unfold p, FILES. rewrite Hm, Hend. unfold BatchOutput.
    rewrite get_own_enumerable
      by (apply record_all_nodup; simpl; apply assign_nodup, record_all_nodup;
          constructor).
    rewrite record_all_other by exact Hpost. simpl.
    rewrite assign_ordinary by exact Hproto. simpl.
    apply get_own_define_same.
  - pose proof (analyzeAll_observable disk fs model compose announce_skips FILES printed) as H1.
    pose proof (analyzeAll_observable disk fs model compose announce_skips (pre ++ post) printed)
      as H2.
    fold p in H1. fold p' in H2. unfold observable in H1, H2.
    injection H1 as _ Hr _. injection H2 as _ Hr' _.
    rewrite Hr, Hr'. unfold FILES. rewrite !flat_map_app. simpl. now rewrite Hsent.
Qed.

(** X3.  An identifier other than [__proto__] has an entry in the written
    file exactly when it is in the input list and exists: every such target
    has some entry, parsed or fallback. *)
Theorem entry_for_every_existing_target
  (disk : sink) (fs : filesystem) (model : service) (compose : jsstring -> jsstring -> jsstring)
  (announce_skips : bool) (FILES : list jsstring) (printed : list console_line)
  (g : jsstring) :
  g <> proto_key ->
  has_own g
    (BatchOutput
       (masterAnalysis (final (analyzeAll disk fs model compose announce_skips FILES printed))))
  = existsb (jsstring_eqb g) FILES && existsSync fs g.
Proof.
  intros Hg.
  pose proof (analyzeAll_observable disk fs model compose announce_skips FILES printed) as Hobs.
  unfold observable in Hobs. injection Hobs as Hm _ _.
  unfold BatchOutput. rewrite has_own_enumerable, Hm.
  now rewrite has_own_record_all.
Qed.

(** X4.  The written file never holds an entry for an identifier that is not
    an existing target of the input list, never holds two entries with one
    key, and has at most as many entries as targets exist. *)
Theorem output_within_inputs
  (disk : sink) (fs : filesystem) (model : service) (compose : jsstring -> jsstring -> jsstring)
  (announce_skips : bool) (FILES : list jsstring) (printed : list console_line) :
  let output :=
    BatchOutput
      (masterAnalysis (final (analyzeAll disk fs model compose announce_skips FILES printed))) in
  Forall (fun e => In (fst e) FILES /\ existsSync fs (fst e) = true) output
  /\ NoDup (map fst output)
  /\ (List.length output <= List.length (filter (existsSync fs) FILES))%nat.
Proof.
  intros output.
  pose proof (analyzeAll_observable disk fs model compose announce_skips FILES printed) as Hobs.
  unfold observable in Hobs. injection Hobs as Hm _ _.
  assert (Hperm : Permutation (map fst output)
                    (map fst (own (record_all FILES (outcomes fs model compose 0 FILES)
                                     empty_object)))).
  { unfold output, BatchOutput. rewrite Hm.
    apply Permutation_map, own_enumerable_entries_perm. }
  assert (Hnd : NoDup (map fst output)).
  { eapply Permutation_NoDup; [apply Permutation_sym, Hperm|].
    apply record_all_nodup. constructor. }
  assert (Hin : forall k, In k (map fst output) ->
                          In k FILES /\ existsSync fs k = true).
  { intros k Hk. eapply Permutation_in in Hk; [|exact Hperm].
    apply keys_record_all in Hk. destruct Hk as [[]|Hk]. exact Hk. }
  split; [|split; [exact Hnd|]].
  - apply Forall_forall. intros e He. apply Hin. now apply in_map.
  - rewrite <- (length_map fst output).
    apply NoDup_incl_length; [exact Hnd|].
    intros k Hk. apply filter_In. now apply Hin.
Qed.

(** X5.  The entry of an identifier is written by its last occurrence in the
    input list: when that occurrence is analysed successfully, the entry is
    its parsed completion, whatever earlier occurrences gave. *)
Theorem last_occurrence_wins
  (disk : sink) (fs : filesystem) (model : service) (compose : jsstring -> jsstring -> jsstring)
  (announce_skips : bool) (pre post : list jsstring) (f code completion : jsstring)
  (v : json) (printed : list console_line) :
  let FILES := pre ++ f :: post in
  let k := List.length (filter (is_readable fs) pre) in
  fs f = Readable code ->
  model k (compose f code) = Some completion ->
  Response_Normalizer completion = Some v ->
  f <> proto_key ->
  ~ In f post ->
  get_own f
    (BatchOutput
       (masterAnalysis (final (analyzeAll disk fs model compose announce_skips FILES printed))))
  = Some v.
Proof.
  intros FILES k Hf Hm Hn Hproto Hpost.
  pose proof (masterAnalysis_around disk fs compose announce_skips model pre post f printed)
    as Hma.
  cbv zeta in Hma. unfold FILES. rewrite Hma, flat_map_sent_length. fold k.
  assert (Hend : outcome_of fs model compose k f = Succeeded v)
    by (unfold outcome_of; now rewrite Hf, Hm, Hn).
  rewrite Hend. unfold BatchOutput.
  rewrite get_own_enumerable
    by (apply record_all_nodup; simpl; apply assign_nodup, record_all_nodup;
        constructor).
  rewrite record_all_other by exact Hpost. simpl.
  rewrite assign_ordinary by exact Hproto. simpl.
  apply get_own_define_same.
Qed.

(** X6.  What [analyzeAll] prints: the opening line, then for each target in
    input order the lines of its end (a skipped target is announced by the
    first revision only; a success prints the start line, and the waiting
    notice when more than one file was named; a failure prints the start line
    and one failure line that names the target), then the closing line,
    unless the write has thrown. *)
Theorem console_report
  (disk : sink) (fs : filesystem) (model : service) (compose : jsstring -> jsstring -> jsstring)
  (announce_skips : bool) (FILES : list jsstring) (printed : list console_line) :
  let p := analyzeAll disk fs model compose announce_skips FILES printed in
  console (final p)
  = printed
    ++ Starting (List.length FILES)
       :: report fs model compose announce_skips FILES 0 FILES
    ++ (if disk OUTPUT_PATH (BatchOutput (masterAnalysis (final p)))
        then [Complete] else []).
Proof.
  unfold analyzeAll, bind.
  match goal with
  | |- context [console_log ?l ?st0] =>
      destruct (console_log l st0) as [st1 r1] eqn:E1
  end.
  unfold console_log in E1. injection E1 as <- <-.
  match goal with
  | |- context [analyze_files ?a ?b ?c ?d ?e ?f ?g] =>
      pose proof (analyze_files_completes a b c d e f g) as Hok;
      pose proof (after_loop_console a b c d e f g) as Hc;
      unfold after_loop in Hc;
      destruct (analyze_files a b c d e f g) as [st2 r2]
  end.
  simpl in Hok, Hc. subst r2. unfold writeFileSync.
  destruct (disk OUTPUT_PATH (BatchOutput (masterAnalysis st2))) eqn:Ed;
    simpl; rewrite Ed, Hc; simpl; rewrite <- ?app_assoc; simpl;
    now rewrite ?app_nil_r.
Qed.

(** X7.  Every delay is of 4000 ms, and the script never sleeps more often
    than it calls the service. *)
Theorem delays_within_requests
  (disk : sink) (fs : filesystem) (model : service) (compose : jsstring -> jsstring -> jsstring)
  (announce_skips : bool) (FILES : list jsstring) (printed : list console_line) :
  let p := analyzeAll disk fs model compose announce_skips FILES printed in
  Forall (fun ms => ms = 4000) (delays (final p))
  /\ (List.length (delays (final p)) <= List.length (requests (final p)))%nat.
Proof.
  intros p.
  pose proof (analyzeAll_observable disk fs model compose announce_skips FILES printed) as Hobs.
  fold p in Hobs. unfold observable in Hobs. injection Hobs as _ Hr Hd.
  rewrite Hd, Hr. split.
  - rewrite throttled_count. apply Forall_forall. intros ms Hin.
    now apply repeat_spec in Hin.
  - apply throttled_all_within_sent.
Qed.

(** X8.  The write is the last step that can fail.  The run ends with status
    1 and without a file exactly when the write throws; by then every request
    has been sent and every delay slept, as in a run whose write returns: what
    the loop does is the same on every disk. *)
Theorem failed_write_ends_run
  (disk disk' : sink) (fs : filesystem) (model : service)
  (compose : jsstring -> jsstring -> jsstring)
  (announce_skips : bool) (FILES : list jsstring) (printed : list console_line) :
  let p := analyzeAll disk fs model compose announce_skips FILES printed in
  let p' := analyzeAll disk' fs model compose announce_skips FILES printed in
  let accepted := disk OUTPUT_PATH (BatchOutput (masterAnalysis (final p))) in
  (exit_code p = Some 1 <-> accepted = false)
  /\ (artifact p = None <-> accepted = false)
  /\ (accepted = true ->
      exit_code p = None
      /\ artifact p = Some (OUTPUT_PATH, BatchOutput (masterAnalysis (final p))))
  /\ observable (final p) = observable (final p')
  /\ trace (final p) = trace (final p').
Proof.
  intros p p' accepted.
  destruct (analyzeAll_spec disk fs model compose announce_skips FILES printed)
    as (He & Ha & _).
  fold p in He, Ha. cbv zeta in He, Ha. fold accepted in He, Ha.
  rewrite He, Ha.
  split; [destruct accepted; split; congruence|].
  split; [destruct accepted; split; congruence|].
  split; [intros ->; now split|].
  split.
  - unfold p, p'. now rewrite !analyzeAll_observable.
  - unfold p, p'. now rewrite !analyzeAll_trace.
Qed.

(** ** The context and the prompts *)

Section ContextFacts.

Variable Number_toString : jsstring -> jsstring.
Variable Number_truthy : jsstring -> bool.
Variable fs : filesystem.

Local Abbreviation package := (read_package Number_toString Number_truthy fs).

(** A value whose field could be read has all its fields readable. *)
Lemma get_field_total (v : json) (k k' : jsstring) (x : option json) :
  get_field v k = Some x -> exists y, get_field v k' = Some y.
Proof. destruct v; simpl; intros H; try discriminate; eauto. Qed.

(** [Object.keys(x || {})] never throws. *)
Lemma Object_keys_or_else (x : option json) :
  exists keys, Object_keys (or_else Number_truthy x (JObject [])) = Some keys.
Proof.
  destruct x as [v|]; simpl; [|eauto].
  destruct (truthy Number_truthy v) eqn:E; [|simpl; eauto].
  destruct v; simpl in *; try discriminate; eauto.
Qed.

End ContextFacts.

(** X9.  When [package.json] exists but cannot be read, is not JSON, or holds
    [null], the context stays the placeholder, one warning is printed, and
    [README.md] is not read even if it exists. *)
Theorem broken_manifest_leaves_placeholder
  (Number_toString : jsstring -> jsstring) (Number_truthy : jsstring -> bool)
  (fs : filesystem) :
  (fs (js "package.json") = Unreadable
   \/ exists text,
        fs (js "package.json") = Readable text
        /\ (JSON_parse text = None \/ JSON_parse text = Some JNull)) ->
  gather_context Number_toString Number_truthy fs
  = {| projectContext := placeholder; warnings := [ContextWarning] |}.
Proof.
  intros H.
  assert (Hthrow : read_package Number_toString Number_truthy fs
                     {| projectContext := placeholder; warnings := [] |}
                   = ({| projectContext := placeholder; warnings := [] |}, None)).
  { unfold read_package, exists_path, read_utf8, bind, of_option.
    destruct H as [->|(text & -> & [->| ->])]; reflexivity. }
  unfold gather_context, try_catch, bind. now rewrite Hthrow.
Qed.

(** X10.  Reading the manifest never leaves a half-built context: whatever
    the files hold, it either completes, or throws with the context and the
    warnings as they were before. *)
Theorem manifest_all_or_nothing
  (Number_toString : jsstring -> jsstring) (Number_truthy : jsstring -> bool)
  (fs : filesystem) (st : context_state) :
  snd (read_package Number_toString Number_truthy fs st) = Some tt
  \/ read_package Number_toString Number_truthy fs st = (st, None).
Proof.
  unfold read_package, exists_path, read_utf8, bind, of_option, set_projectContext, ret.
  destruct (fs (js "package.json")) as [| |text]; simpl; auto.
  destruct (JSON_parse text) as [pkg|]; simpl; auto.
  destruct (get_field pkg (js "name")) as [name|] eqn:En; simpl; auto.
  destruct (ToString Number_toString _) as [name_text|]; simpl; auto.
  destruct (get_field_total _ _ (js "description") _ En) as [d ->]. simpl.
  destruct (ToString Number_toString _) as [description_text|]; simpl; auto.
  destruct (get_field_total _ _ (js "dependencies") _ En) as [deps ->]. simpl.
  destruct (Object_keys_or_else Number_truthy deps) as [keys ->]. simpl. auto.
Qed.

(** X11.  For a manifest that is an object whose [name] and [description] are
    strings or absent and whose [dependencies] is an object or absent, the
    context names the project ([Unnamed] when the name is absent or empty),
    gives the description (empty when absent), and lists the keys of the
    dependencies, separated by a comma and a space, in the order in which the
    object enumerates them. *)
Theorem manifest_context_format
  (Number_toString : jsstring -> jsstring) (Number_truthy : jsstring -> bool)
  (fs : filesystem) (text : jsstring) (ps : properties_of)
  (name description : option jsstring) (deps : option properties_of)
  (st : context_state) :
  fs (js "package.json") = Readable text ->
  JSON_parse text = Some (JObject ps) ->
  get_own (js "name") ps = option_map JString name ->
  get_own (js "description") ps = option_map JString description ->
  get_own (js "dependencies") ps = option_map JObject deps ->
  read_package Number_toString Number_truthy fs st
  = ({| projectContext :=
          (js "Project Name: " ++ dq ++ text_or (js "Unnamed") name ++ dq ++ lf
           ++ js "Description: " ++ dq ++ text_or [] description ++ dq)
          ++ lf ++ js "Key Libraries: "
          ++ join (js ", ")
               (match deps with
                | Some d => map fst (own_enumerable_entries d)
                | None => []
                end);
        warnings := warnings st |}, Some tt).
Proof.
  intros Hfs Hparse Hname Hdesc Hdeps.
  unfold read_package, exists_path, read_utf8, bind, of_option, set_projectContext.
  rewrite Hfs, Hparse. cbn [get_field]. rewrite Hname, Hdesc, Hdeps.
  destruct name as [[|c n]|], description as [[|c' d]|], deps as [d0|];
    reflexivity.
Qed.

(** X12.  Once the manifest is read, a [README.md] that is missing leaves the
    context as the manifest made it, and one that exists but cannot be read
    costs a warning and nothing else. *)
Theorem readme_failure_keeps_manifest
  (Number_toString : jsstring -> jsstring) (Number_truthy : jsstring -> bool)
  (fs : filesystem) (st1 : context_state) :
  read_package Number_toString Number_truthy fs
    {| projectContext := placeholder; warnings := [] |} = (st1, Some tt) ->
  (fs (js "README.md") = Missing ->
   gather_context Number_toString Number_truthy fs = st1)
  /\ (fs (js "README.md") = Unreadable ->
      gather_context Number_toString Number_truthy fs
      = {| projectContext := projectContext st1;
           warnings := warnings st1 ++ [ContextWarning] |}).
Proof.
  intros Hp. split; intros Hr;
    unfold gather_context, try_catch, bind; rewrite Hp;
    unfold read_readme, exists_path, read_utf8, bind, of_option; rewrite Hr;
    reflexivity.
Qed.

(** X13.  The prompt of the first revision depends on the content of the file
    only, not on its path, and two contents give the same prompt only when
    they are equal. *)
Theorem prompt_v1_by_content (f g code code' : jsstring) :
  prompt_v1 f code = prompt_v1 g code' <-> code = code'.
Proof.
  split; [|intros ->; reflexivity].
  unfold prompt_v1. cbn [List.concat]. intros H.
  rewrite <- !app_assoc in H.
  repeat apply app_inv_head in H.
  now apply app_inv_tail in H.
Qed.


(** X15.  In the prompt of the second revision a file is named by the last
    part of its path only: the same file name with the same content under
    another directory, or under none, gives the same prompt. *)
Theorem prompt_v2_names_last_part (ctx dir name code : jsstring) :
  name <> [] ->
  Forall (fun c => is_slash c = false) name ->
  prompt_v2 ctx (dir ++ js "/" ++ name) code = prompt_v2 ctx name code.
Proof.
  intros Hne Hname.
  assert (Hb : basename (dir ++ js "/" ++ name) = basename name).
  { unfold basename. rewrite !rev_app_distr, <- app_assoc.
    assert (Hr : Forall (fun c => is_slash c = false) (rev name))
      by (apply Forall_forall; intros c Hc; apply in_rev in Hc;
          revert c Hc; now apply Forall_forall).
    assert (Hrn : rev name <> [])
      by (intros E; apply Hne; rewrite <- (rev_involutive name), E; reflexivity).
    assert (Hd : forall r, drop_slashes (rev name ++ r) = rev name ++ r).
    { intros r. destruct (rev name) as [|c t]; [congruence|].
      inversion Hr as [|? ? Hc _]; subst. cbn [app drop_slashes]. now rewrite Hc. }
    rewrite Hd. rewrite <- (app_nil_r (rev name)) at 2. rewrite Hd, app_nil_r.
    f_equal. clear Hd Hrn. induction Hr as [|c t Hc _ IH]; [reflexivity|].
    cbn [app until_slash]. rewrite Hc. now rewrite IH. }
  assert (He : ends_with (js ".tsx") (dir ++ js "/" ++ name)
               = ends_with (js ".tsx") name).
  { unfold ends_with. rewrite !rev_app_distr, <- app_assoc.
    change (rev (js "/") ++ rev dir) with (47 :: rev dir).
    destruct (starts_with (rev (js ".tsx")) (rev name)) eqn:E.
    - apply starts_with_split in E as [r ->]. rewrite <- app_assoc.
      apply starts_with_prefix.
    - destruct (starts_with _ (rev name ++ 47 :: rev dir)) eqn:E'; [|reflexivity].
      apply starts_with_across in E'; [congruence|].
      vm_compute. intros [H|[H|[H|[H|[]]]]]; discriminate. }
  unfold prompt_v2. now rewrite Hb, He.
Qed.

(** ** The two revisions side by side *)

Section PromptBlind.

Variable fs : filesystem.
Variable model : service.
Hypothesis blind : forall k p q, model k p = model k q.

Lemma outcomes_compose (c1 c2 : jsstring -> jsstring -> jsstring) (k : nat)
  (files : list jsstring) :
  outcomes fs model c1 k files = outcomes fs model c2 k files.
Proof.
  revert k; induction files as [|f files IH]; intros k; simpl; [reflexivity|].
  f_equal.
  - unfold outcome_of. destruct (fs f); try reflexivity.
    now rewrite (blind k (c1 f content) (c2 f content)).
  - rewrite !sent_for_length. apply IH.
Qed.

End PromptBlind.

(** X16.  The second revision changes what is asked and what is printed, not
    what is done with the answers: with a service whose answers do not depend
    on the text of the prompt, both revisions leave with the same code, write
    the same file, sleep as often and send as many requests. *)
Theorem revisions_agree_when_prompt_ignored
  (Number_toString : jsstring -> jsstring) (Number_truthy : jsstring -> bool)
  (disk : sink) (fs : filesystem) (model : service) (FILES : list jsstring) :
  (forall k p q, model k p = model k q) ->
  let p1 := main_v1 disk fs model FILES in
  let p2 := main_v2 disk Number_toString Number_truthy fs model FILES in
  exit_code p1 = exit_code p2
  /\ artifact p1 = artifact p2
  /\ delays (final p1) = delays (final p2)
  /\ List.length (requests (final p1)) = List.length (requests (final p2)).
Proof.
  intros blind p1 p2. destruct FILES as [|f files]; [now repeat split|].
  unfold p1, p2. rewrite main_v1_analyzeAll, main_v2_analyzeAll by discriminate.
  clear p1 p2. generalize (f :: files) as FILES. clear f files. intros FILES.
  set (c2 := prompt_v2 _).
  set (w := warnings _).
  destruct (analyzeAll_spec disk fs model prompt_v1 true FILES []) as (E1 & A1 & _).
  destruct (analyzeAll_spec disk fs model c2 false FILES w) as (E2 & A2 & _).
  pose proof (analyzeAll_observable disk fs model prompt_v1 true FILES []) as O1.
  pose proof (analyzeAll_observable disk fs model c2 false FILES w) as O2.
  cbv zeta in E1, A1, E2, A2. unfold observable in O1, O2.
  injection O1 as M1 R1 D1. injection O2 as M2 R2 D2.
  rewrite E1, E2, A1, A2, M1, M2, D1, D2, R1, R2.
  rewrite (outcomes_compose fs model blind prompt_v1 c2).
  rewrite !flat_map_sent_length. now repeat split.
Qed.

(** ** The normalizer *)

Lemma trim_start_idempotent (s : jsstring) : trim_start (trim_start s) = trim_start s.
Proof.
  induction s as [|c s IH]; [reflexivity|]. cbn [trim_start].
  destruct (is_js_space c) eqn:E; [exact IH|]. cbn [trim_start]. now rewrite E.
Qed.

(** [trim_start] keeps an end of the text. *)
Lemma trim_start_suffix (s : jsstring) : exists w, s = w ++ trim_start s.
Proof.
  induction s as [|c s [w IH]]; [now exists []|]. cbn [trim_start].
  destruct (is_js_space c); [|now exists []].
  exists (c :: w). cbn [app]. now rewrite <- IH.
Qed.

(** [trim_end] keeps a start of the text. *)
Lemma trim_end_prefix (s : jsstring) : exists w, s = trim_end s ++ w.
Proof.
  unfold trim_end. destruct (trim_start_suffix (rev s)) as [w Hw].
  exists (rev w). rewrite <- rev_app_distr, <- Hw. now rewrite rev_involutive.
Qed.

Lemma trim_idempotent (s : jsstring) : trim (trim s) = trim s.
Proof.
  unfold trim. set (u := trim_start s).
  assert (Hu : trim_start u = u) by apply trim_start_idempotent.
  assert (H : trim_start (trim_end u) = trim_end u).
  { destruct (trim_end_prefix u) as [w Hw].
    destruct (trim_end u) as [|c t]; [reflexivity|].
    rewrite Hw in Hu. cbn [app trim_start] in Hu. cbn [trim_start].
    destruct (is_js_space c); [|reflexivity].
    exfalso. destruct (trim_start_suffix (t ++ w)) as [x Hx].
    rewrite Hu in Hx. apply (f_equal (@List.length _)) in Hx.
    rewrite !length_app in Hx. cbn [List.length] in Hx.
    rewrite length_app in Hx. lia. }
  rewrite H. unfold trim_end. rewrite rev_involutive.
  now rewrite trim_start_idempotent.
Qed.

Lemma starts_with_app_r (pat s r : jsstring) :
  starts_with pat s = true -> starts_with pat (s ++ r) = true.
Proof.
  intros H. apply starts_with_split in H as [t ->]. rewrite <- app_assoc.
  apply starts_with_prefix.
Qed.

(** A part of a text without a match has no match. *)
Lemma includes_part (pat a s b : jsstring) :
  pat <> [] -> includes pat (a ++ s ++ b) = false -> includes pat s = false.
Proof.
  intros Hne. induction a as [|c a IH]; cbn [app includes].
  - induction s as [|c s IH]; cbn [app includes]; intros H.
    + destruct pat; [congruence|reflexivity].
    + apply orb_false_iff in H as [H1 H2]. rewrite (IH H2), orb_false_r.
      destruct (starts_with pat (c :: s)) eqn:E; [|reflexivity].
      pose proof (starts_with_app_r _ (c :: s) b E) as E'.
      cbn [app] in E'. congruence.
  - intros H. apply orb_false_iff in H as [_ H]. now apply IH.
Qed.

Lemma includes_trim (pat s : jsstring) :
  pat <> [] -> includes pat s = false -> includes pat (trim s) = false.
Proof.
  intros Hne H. unfold trim.
  destruct (trim_start_suffix s) as [a Ha].
  destruct (trim_end_prefix (trim_start s)) as [b Hb].
  rewrite Hb in Ha. rewrite Ha in H. now apply includes_part in H.
Qed.

(** A code unit that is not part of the pattern, at the end of the text, is
    kept and ends no match. *)
Lemma replace_all_snoc (pat s : jsstring) (x : code_unit) :
  pat <> [] -> ~ In x pat ->
  replace_all_by_empty pat (s ++ [x]) = replace_all_by_empty pat s ++ [x].
Proof.
  intros Hne Hx. pattern s. apply (scan_ind pat); clear s;
    [exact Hne| |intros r IH|intros c s Hsw IH].
  - cbn [app]. now rewrite replace_all_keep by now apply starts_with_foreign.
  - rewrite <- app_assoc. now rewrite !replace_all_match by exact Hne.
  - cbn [app]. rewrite !replace_all_keep; [now rewrite IH|exact Hsw|].
    destruct (starts_with pat (c :: s ++ [x])) eqn:E; [|reflexivity].
    apply (starts_with_across pat (c :: s) x []) in E; [congruence|exact Hx].
Qed.

Lemma space_not_in_fence_json (c : code_unit) :
  is_js_space c = true -> ~ In c fence_json.
Proof.
  intros Hc Hin. vm_compute in Hin.
  repeat (destruct Hin as [<-|Hin]; [discriminate|]). exact Hin.
Qed.

Lemma space_not_in_fence (c : code_unit) : is_js_space c = true -> ~ In c fence.
Proof.
  intros Hc Hin. apply (space_not_in_fence_json c Hc).
  unfold fence_json. apply in_or_app. now left.
Qed.

Lemma strip_fences_space_cons (c : code_unit) (s : jsstring) :
  is_js_space c = true -> strip_fences (c :: s) = c :: strip_fences s.
Proof.
  intros Hc. unfold strip_fences.
  rewrite (replace_all_keep fence_json)
    by (apply starts_with_foreign;
        [exact fence_json_nonempty|now apply space_not_in_fence_json]).
  now rewrite replace_all_keep
    by (apply starts_with_foreign;
        [exact fence_nonempty|now apply space_not_in_fence]).
Qed.

Lemma strip_fences_space_snoc (c : code_unit) (s : jsstring) :
  is_js_space c = true -> strip_fences (s ++ [c]) = strip_fences s ++ [c].
Proof.
  intros Hc. unfold strip_fences.
  rewrite replace_all_snoc
    by (try exact fence_json_nonempty; now apply space_not_in_fence_json).
  now rewrite replace_all_snoc
    by (try exact fence_nonempty; now apply space_not_in_fence).
Qed.

(** X17.  Normalizing is idempotent: the text that is parsed has no fence
    marker and no white space at its ends, so that normalizing it again
    changes nothing, and gives the same value. *)
Theorem normalized_text_idempotent (completion : jsstring) :
  includes fence (normalized_text completion) = false
  /\ normalized_text (normalized_text completion) = normalized_text completion
  /\ Response_Normalizer (normalized_text completion) = Response_Normalizer completion.
Proof.
  assert (Hf : includes fence (normalized_text completion) = false)
    by (apply includes_trim; [exact fence_nonempty|apply strip_fences_complete]).
  assert (Hi : normalized_text (normalized_text completion) = normalized_text completion).
  { unfold normalized_text at 1. rewrite strip_fences_absent by exact Hf.
    apply trim_idempotent. }
  split; [exact Hf|]. split; [exact Hi|].
  unfold Response_Normalizer. fold (normalized_text (normalized_text completion)).
  now rewrite Hi.
Qed.

(** X18.  White space before and after a completion, also around its fence
    markers at the two ends, does not change the value it is parsed to. *)
Theorem normalizer_ignores_outer_space (before completion after : jsstring) :
  Forall (fun c => is_js_space c = true) before ->
  Forall (fun c => is_js_space c = true) after ->
  normalized_text (before ++ completion ++ after) = normalized_text completion
  /\ Response_Normalizer (before ++ completion ++ after)
     = Response_Normalizer completion.
Proof.
  intros Hb Ha.
  assert (H : normalized_text (before ++ completion ++ after)
              = normalized_text completion).
  { unfold normalized_text. induction Hb as [|c b Hc _ IH].
    - cbn [app]. clear - Ha. induction after as [|c a IH] using rev_ind.
      + now rewrite app_nil_r.
      + apply Forall_app in Ha as [Ha Hc]. inversion Hc as [|? ? Hc' _]; subst.
        rewrite app_assoc, strip_fences_space_snoc, trim_snoc by exact Hc'.
        now apply IH.
    - cbn [app]. now rewrite strip_fences_space_cons, trim_cons by exact Hc. }
  split; [exact H|]. unfold Response_Normalizer.
  fold (normalized_text (before ++ completion ++ after)).
  fold (normalized_text completion). now rewrite H.
Qed.

(** * Runs on concrete inputs *)

(** Scenario 1 of the specification: one target, no delay, one key. *)
Example scenario_single_target :
  let p := main_v1 working_disk all_readable numbering_model [js "Button.jsx"] in
  delays (final p) = []
  /\ artifact p = Some (OUTPUT_PATH, [(js "Button.jsx", numbered_value 0)]).
Proof. split; vm_compute; reflexivity. Qed.

(** Scenario 2: a fenced answer for [A.tsx], an empty one for [B.tsx]. *)
Example scenario_fenced_then_empty :
  artifact (main_v1 working_disk all_readable fenced_then_empty [js "A.tsx"; js "B.tsx"])
  = Some (OUTPUT_PATH, [(js "A.tsx", scenario_value); (js "B.tsx", fallback)]).
Proof. vm_compute. reflexivity. Qed.

(** Scenario 3: a path without content has no entry. *)
Example scenario_missing_path :
  artifact (main_v1 working_disk one_missing numbering_model [js "A.tsx"; js "gone.tsx"])
  = Some (OUTPUT_PATH, [(js "A.tsx", numbered_value 0)]).
Proof. vm_compute. reflexivity. Qed.

(** Every target readable, every answer parsed: one step per target. *)
Ltac each_target_succeeds :=
  simpl;
  repeat (split;
          [eexists; eexists;
           split; [reflexivity|split; [reflexivity|vm_compute; reflexivity]]|]);
  exact I.

(** [JSON.parse] on small texts. *)
Example JSON_parse_nested :
  JSON_parse (js " [1, -2.5e+3, true, null, {}, [[]]] ")
  = Some (JArray [JNumber (js "1"); JNumber (js "-2.5e+3"); JBool true; JNull;
                  JObject []; JArray [JArray []]]).
Proof. vm_compute. reflexivity. Qed.

Example JSON_parse_repeated_key :
  JSON_parse (js "{" ++ quoted (js "a") ++ js ":1," ++ quoted (js "b") ++ js ":2,"
              ++ quoted (js "a") ++ js ":3}")
  = Some (JObject [(js "a", JNumber (js "3")); (js "b", JNumber (js "2"))]).
Proof. vm_compute. reflexivity. Qed.

Example JSON_parse_rejects :
  JSON_parse (js "[1,]") = None
  /\ JSON_parse (js "01") = None
  /\ JSON_parse (js "1.") = None
  /\ JSON_parse (js "{} x") = None
  /\ JSON_parse [] = None
  /\ JSON_parse (65279 :: js "{}") = None.
Proof. repeat split; vm_compute; reflexivity. Qed.

(** Array-index keys come first in the written file, in numeric order. *)
Example enumeration_order :
  map fst (own_enumerable_entries
             [(js "b", JNull); (js "10", JNull); (js "9", JNull); (js "01", JNull);
              (js "a", JNull); (js "0", JNull)])
  = [js "0"; js "9"; js "10"; js "b"; js "01"; js "a"].
Proof. vm_compute. reflexivity. Qed.

(** C1, counterexample.  Four identifiers, all readable, all answered by
    well-formed completions: [b.jsx] comes twice, [7] is an array index and
    [__proto__] is the key of the prototype accessor.  The file written holds
    two entries, [7] before [b.jsx], the latter with the value of its second
    occurrence: not the four entries in input order that C1 states. *)
Lemma all_succeed_output_counterexample :
  let FILES := [js "b.jsx"; js "7"; js "b.jsx"; js "__proto__"] in
  let vs := map numbered_value [0; 1; 2; 3]%nat in
  all_succeed all_readable numbering_model prompt_v1 0 FILES vs
  /\ artifact (main_v1 working_disk all_readable numbering_model FILES)
     = Some (OUTPUT_PATH, [(js "7", numbered_value 1); (js "b.jsx", numbered_value 2)])
  /\ artifact (main_v1 working_disk all_readable numbering_model FILES)
     <> Some (OUTPUT_PATH, combine FILES vs).
Proof.
  cbv zeta. split; [|split].
  - each_target_succeeds.
  - vm_compute. reflexivity.
  - vm_compute. discriminate.
Qed.

Lemma analyzeAll_all_succeed_witness :
  artifact (analyzeAll working_disk all_readable numbering_model prompt_v1 true
              [js "A.tsx"; js "B.tsx"] [])
  = Some (OUTPUT_PATH, combine [js "A.tsx"; js "B.tsx"]
                         [numbered_value 0; numbered_value 1]).
Proof.
  refine (proj2 (analyzeAll_all_succeed working_disk all_readable numbering_model
                   prompt_v1 true [js "A.tsx"; js "B.tsx"]
                   [numbered_value 0; numbered_value 1] [] _ _ _)).
  - each_target_succeeds.
  - repeat constructor; simpl; intuition discriminate.
  - repeat constructor; try (vm_compute; reflexivity); discriminate.
Defined.

(** C2, counterexample.  The request for [__proto__] is refused and the first
    completion for [A.tsx] is empty; the second request for [A.tsx] succeeds.
    The file written has no entry for [__proto__], and the entry of [A.tsx]
    is the parsed value of the later request, not the fallback. *)
Lemma failure_fallback_counterexample :
  let FILES := [js "__proto__"; js "A.tsx"; js "A.tsx"] in
  outcomes all_readable failing_twice prompt_v1 0 FILES
  = [FailedFallback; FailedFallback; Succeeded (numbered_value 2)]
  /\ artifact (main_v1 working_disk all_readable failing_twice FILES)
     = Some (OUTPUT_PATH, [(js "A.tsx", numbered_value 2)])
  /\ get_own (js "__proto__") [(js "A.tsx", numbered_value 2)] = None
  /\ get_own (js "A.tsx") [(js "A.tsx", numbered_value 2)] <> Some fallback.
Proof.
  cbv zeta. repeat split; try (vm_compute; reflexivity).
  vm_compute. discriminate.
Qed.

Lemma failure_recorded_as_fallback_witness :
  get_own (js "B.tsx")
    (BatchOutput
       (masterAnalysis
          (final (analyzeAll working_disk all_readable failing_second prompt_v1 true
                    ([js "A.tsx"] ++ js "B.tsx" :: [js "C.tsx"]) []))))
  = Some fallback.
Proof.
  refine (proj1 (failure_recorded_as_fallback working_disk all_readable failing_second prompt_v1
                   true [js "A.tsx"] [js "C.tsx"] (js "B.tsx")
                   (js "export default () => null") [] _ _ _ _)).
  - reflexivity.
  - left. vm_compute. reflexivity.
  - vm_compute. discriminate.
  - simpl. intuition discriminate.
Defined.




Lemma missing_target_skipped_witness :
  get_own (js "gone.tsx")
    (BatchOutput
       (masterAnalysis
          (final (analyzeAll working_disk one_missing numbering_model prompt_v1 true
                    ([js "A.tsx"] ++ js "gone.tsx" :: [js "B.tsx"]) []))))
  = None.
Proof.
  refine (proj1 (proj2 (proj2
            (missing_target_skipped working_disk one_missing numbering_model prompt_v1 true
               [js "A.tsx"] [js "B.tsx"] (js "gone.tsx") initial_state [] _)))).
  reflexivity.
Defined.





Lemma strip_fences_fence_free_witness :
  strip_fences scenario_text = scenario_text.
Proof.
  refine (proj1 (proj2 (strip_fences_fence_free scenario_text _))).
  vm_compute. reflexivity.
Defined.

(** ** Runs for the further properties *)

Lemma unreadable_target_fallback_witness :
  get_own (js "locked.tsx")
    (BatchOutput
       (masterAnalysis
          (final (analyzeAll working_disk one_unreadable numbering_model prompt_v1 true
                    ([js "A.tsx"] ++ js "locked.tsx" :: [js "B.tsx"]) []))))
  = Some fallback.
Proof.
  refine (proj1 (proj2 (unreadable_target_fallback working_disk one_unreadable numbering_model
                          prompt_v1 true [js "A.tsx"] [js "B.tsx"] (js "locked.tsx")
                          initial_state [] _ _ _))).
  - reflexivity.
  - vm_compute. discriminate.
  - simpl. intuition discriminate.
Defined.

Lemma entry_for_every_existing_target_witness :
  has_own (js "A.tsx")
    (BatchOutput
       (masterAnalysis
          (final (analyzeAll working_disk one_missing numbering_model prompt_v1 true
                    [js "A.tsx"; js "gone.tsx"] []))))
  = existsb (jsstring_eqb (js "A.tsx")) [js "A.tsx"; js "gone.tsx"]
    && existsSync one_missing (js "A.tsx").
Proof.
  apply (entry_for_every_existing_target working_disk one_missing numbering_model prompt_v1 true
           [js "A.tsx"; js "gone.tsx"] [] (js "A.tsx")).
  vm_compute. discriminate.
Defined.

Lemma last_occurrence_wins_witness :
  get_own (js "A.tsx")
    (BatchOutput
       (masterAnalysis
          (final (analyzeAll working_disk all_readable failing_twice prompt_v1 true
                    ([js "A.tsx"; js "A.tsx"] ++ js "A.tsx" :: [js "B.tsx"]) []))))
  = Some (numbered_value 2).
Proof.
  refine (last_occurrence_wins working_disk all_readable failing_twice prompt_v1 true
            [js "A.tsx"; js "A.tsx"] [js "B.tsx"] (js "A.tsx")
            (js "export default () => null") (numbered_completion 2)
            (numbered_value 2) [] _ _ _ _ _).
  - reflexivity.
  - reflexivity.
  - vm_compute. reflexivity.
  - vm_compute. discriminate.
  - simpl. intuition discriminate.
Defined.

Lemma broken_manifest_leaves_placeholder_witness :
  gather_context (fun lx => lx) (fun _ => true) null_manifest
  = {| projectContext := placeholder; warnings := [ContextWarning] |}.
Proof.
  apply (broken_manifest_leaves_placeholder (fun lx => lx) (fun _ => true)
           null_manifest).
  right. exists (js "null"). split; [reflexivity|].
  right. vm_compute. reflexivity.
Defined.

Lemma manifest_context_format_witness :
  read_package (fun lx => lx) (fun _ => true) with_manifest
    {| projectContext := placeholder; warnings := [] |}
  = ({| projectContext :=
          (js "Project Name: " ++ dq ++ text_or (js "Unnamed") (Some (js "shop"))
           ++ dq ++ lf ++ js "Description: " ++ dq ++ text_or [] None ++ dq)
          ++ lf ++ js "Key Libraries: "
          ++ join (js ", ")
               (map fst
                  (own_enumerable_entries
                     [(js "react", JString (js "^18.0.0"));
                      (js "redux", JString (js "^5.0.0"))]));
        warnings := [] |}, Some tt).
Proof.
  refine (manifest_context_format (fun lx => lx) (fun _ => true) with_manifest
            manifest_text
            [(js "name", JString (js "shop"));
             (js "dependencies",
              JObject [(js "react", JString (js "^18.0.0"));
                       (js "redux", JString (js "^5.0.0"))])]
            (Some (js "shop")) None
            (Some [(js "react", JString (js "^18.0.0"));
                   (js "redux", JString (js "^5.0.0"))])
            {| projectContext := placeholder; warnings := [] |} _ _ _ _ _).
  - reflexivity.
  - vm_compute. reflexivity.
  - reflexivity.
  - reflexivity.
  - reflexivity.
Defined.

Lemma readme_failure_keeps_manifest_witness :
  gather_context (fun lx => lx) (fun _ => true) locked_readme
  = {| projectContext :=
         projectContext
           (fst (read_package (fun lx => lx) (fun _ => true) locked_readme
                   {| projectContext := placeholder; warnings := [] |}));
       warnings := [] ++ [ContextWarning] |}.
Proof.
  refine (proj2 (readme_failure_keeps_manifest (fun lx => lx) (fun _ => true)
                   locked_readme
                   {| projectContext :=
                        projectContext
                          (fst (read_package (fun lx => lx) (fun _ => true)
                                  locked_readme
                                  {| projectContext := placeholder;
                                     warnings := [] |}));
                      warnings := [] |} _) _).
  - vm_compute. reflexivity.
  - reflexivity.
Defined.

Lemma prompt_v2_names_last_part_witness :
  prompt_v2 placeholder (js "src/ui" ++ js "/" ++ js "Card.tsx") (js "export {}")
  = prompt_v2 placeholder (js "Card.tsx") (js "export {}").
Proof.
  apply (prompt_v2_names_last_part placeholder (js "src/ui") (js "Card.tsx")
           (js "export {}")).
  - discriminate.
  - vm_compute. repeat constructor.
Defined.

Lemma revisions_agree_when_prompt_ignored_witness :
  artifact (main_v1 working_disk all_readable numbering_model [js "A.tsx"; js "B.tsx"])
  = artifact (main_v2 working_disk (fun lx => lx) (fun _ => true) all_readable numbering_model
                [js "A.tsx"; js "B.tsx"]).
Proof.
  refine (proj1 (proj2 (revisions_agree_when_prompt_ignored (fun lx => lx)
                          (fun _ => true) working_disk all_readable numbering_model
                          [js "A.tsx"; js "B.tsx"] _))).
  reflexivity.
Defined.

Lemma normalizer_ignores_outer_space_witness :
  Response_Normalizer
    ((js " " ++ lf) ++ fenced (js "json") scenario_text ++ (lf ++ js "  "))
  = Response_Normalizer (fenced (js "json") scenario_text).
Proof.
  refine (proj2 (normalizer_ignores_outer_space (js " " ++ lf)
                   (fenced (js "json") scenario_text) (lf ++ js "  ") _ _));
    vm_compute; repeat constructor.
Defined.
